(** * argon2: a password-hash value type (merajsahebdar/argon2)

    Shallow embedding of [argon2.go].  Go strings are byte sequences and are
    modelled by [string]; a [[]byte] slice is a [list byte], and a slice
    field that may be [nil] is an [option (list byte)].  Fixed-width integers
    are [Z] with their ranges written out. *)

From Stdlib Require Import ZArith List Bool Ascii String Lia.
From Stdlib.Strings Require Import Byte.
From Stdlib Require Import DecimalString.
From Stdlib Require DecimalPos.
Import ListNotations.

Local Open Scope string_scope.
Local Open Scope Z_scope.

(** ** Outcomes, errors *)

(** A call either returns or panics with a message. *)
Inductive outcome (A : Type) : Type :=
| Returned (x : A)
| Panicked (msg : string).
Arguments Returned {A} x.
Arguments Panicked {A} msg.

(** Errors raised by the library routines the package calls. *)
Inductive lib_error : Type :=
| UnexpectedEOF            (* io.ErrUnexpectedEOF *)
| InputMismatch            (* "input does not match format" *)
| UnexpectedNewline        (* "unexpected newline" *)
| ExpectedInteger          (* "expected integer" *)
| NumSyntax                (* strconv.ErrSyntax *)
| NumRange                 (* strconv.ErrRange *)
| IntegerOverflow          (* "integer overflow on token" *)
| TooFewOperands           (* "too few operands for format" *)
| CorruptInput             (* base64.CorruptInputError *)
| RandFailure.             (* failure of the entropy source *)

(** Go [error] values: the package's three sentinels, library errors, and
    [fmt.Errorf("<msg>: %w", err)] wrappers. *)
Inductive error : Type :=
| ErrInvalidEncodedHash
| ErrIncompatibleVersion
| ErrScan
| LibError (e : lib_error)
| Wrapf (msg : string) (e : error).

Definition lib_error_eqb (x y : lib_error) : bool :=
  match x, y with
  | UnexpectedEOF, UnexpectedEOF
  | InputMismatch, InputMismatch
  | UnexpectedNewline, UnexpectedNewline
  | ExpectedInteger, ExpectedInteger
  | NumSyntax, NumSyntax
  | NumRange, NumRange
  | IntegerOverflow, IntegerOverflow
  | TooFewOperands, TooFewOperands
  | CorruptInput, CorruptInput
  | RandFailure, RandFailure => true
  | _, _ => false
  end.

(** Identity of error values, ignoring wrappers ([==] on sentinels). *)
Definition error_same (x y : error) : bool :=
  match x, y with
  | ErrInvalidEncodedHash, ErrInvalidEncodedHash => true
  | ErrIncompatibleVersion, ErrIncompatibleVersion => true
  | ErrScan, ErrScan => true
  | LibError a, LibError b => lib_error_eqb a b
  | _, _ => false
  end.

(** [errors.Is]: walks the [%w] chain. *)
Fixpoint errors_Is (err target : error) : bool :=
  error_same err target ||
  match err with
  | Wrapf _ e => errors_Is e target
  | _ => false
  end.

(** ** Bytes *)

Definition u8 (b : byte) : Z := Z.of_N (Byte.to_N b).

(** [[]byte(s)] and [string(b)]. *)
Definition bytes_of_string (s : string) : list byte := list_byte_of_string s.

(** The elements of a possibly-nil slice. *)
Definition elems (s : option (list byte)) : list byte :=
  match s with
  | Some l => l
  | None => []
  end.

(** [len(s)] of a possibly-nil slice. *)
Definition len (s : option (list byte)) : Z := Z.of_nat (List.length (elems s)).

(** ** crypto/subtle *)

(** [ConstantTimeByteEq]: [int((uint32(x^y) - 1) >> 31)]. *)
Definition ConstantTimeByteEq (x y : Z) : Z :=
  Z.shiftr ((Z.lxor x y - 1) mod 2 ^ 32) 31.

(** The accumulation loop [v |= x[i] ^ y[i]] over equal-length slices. *)
Fixpoint or_xor (v : Z) (x y : list byte) : Z :=
  match x, y with
  | a :: x', b :: y' => or_xor (Z.lor v (Z.lxor (u8 a) (u8 b))) x' y'
  | _, _ => v
  end.

Definition ConstantTimeCompare (x y : list byte) : Z :=
  if negb (Nat.eqb (List.length x) (List.length y)) then 0
  else ConstantTimeByteEq (or_xor 0 x y) 0.

(** ** golang.org/x/crypto/argon2 *)

(** [argon2.Version]. *)
Definition argon2_Version : Z := 19.

(** The memory-hard derivation itself is a trusted primitive: from the
    password, the salt, the time, memory and thread costs and the key
    length it gives the key, byte by byte. *)
Definition kdf : Type :=
  list byte -> list byte -> Z -> Z -> Z -> Z -> nat -> byte.

(** [argon2.IDKey]: the library checks its cost arguments before deriving
    ([time < 1] and [threads < 1] panic), then fills a fresh slice of
    [keyLen] bytes.  With [keyLen = 0] the final hash is asked for an
    output of size zero, gets no digest ([blake2b.New(0, nil)] fails) and
    writes to it: a nil dereference. *)
Definition IDKey (core : kdf) (password salt : list byte)
    (time memory threads keyLen : Z) : outcome (list byte) :=
  if time <? 1 then Panicked "argon2: number of rounds too small"
  else if threads <? 1 then Panicked "argon2: parallelism degree too low"
  else if keyLen <? 1 then
    Panicked "runtime error: invalid memory address or nil pointer dereference"
  else
    Returned (map (core password salt time memory threads keyLen)
                  (seq 0 (Z.to_nat keyLen))).

(** ** The package *)

Definition iterations_default : Z := 3.
Definition memory_default : Z := 64 * 1024.
Definition parallelism_default : Z := 2.
Definition keyLength_default : Z := 32.
Definition saltLength : Z := 16.
Definition encodedSlicesCount : nat := 6.

Record Argon2 : Type := mkArgon2 {
  salt : option (list byte);
  iterations : Z;     (* uint32 *)
  memory : Z;         (* uint32 *)
  parallelism : Z;    (* uint8 *)
  keyLength : Z;      (* uint32 *)
  hashed : option (list byte);
  isValid : bool
}.

(** [Argon2{}]. *)
Definition zero : Argon2 := mkArgon2 None 0 0 0 0 None false.

Definition set_salt (a : Argon2) (s : option (list byte)) : Argon2 :=
  mkArgon2 s (iterations a) (memory a) (parallelism a) (keyLength a)
           (hashed a) (isValid a).

Definition set_hashed (a : Argon2) (h : option (list byte)) : Argon2 :=
  mkArgon2 (salt a) (iterations a) (memory a) (parallelism a) (keyLength a)
           h (isValid a).

Definition set_isValid (a : Argon2) (v : bool) : Argon2 :=
  mkArgon2 (salt a) (iterations a) (memory a) (parallelism a) (keyLength a)
           (hashed a) v.

(** Library calls whose value is dropped by the caller on failure. *)
Inductive result (A : Type) : Type :=
| Ok (x : A)
| Err (e : lib_error).
Arguments Ok {A} x.
Arguments Err {A} e.

(** ** encoding/base64: [RawStdEncoding] (standard alphabet, no padding) *)

Definition encodeStd : string :=
  "ABCDEFGHIJKLMNOPQRSTUVWXYZabcdefghijklmnopqrstuvwxyz0123456789+/".

(** [enc.encode[i]]. *)
Definition encode_char (i : Z) : ascii :=
  match String.get (Z.to_nat i) encodeStd with
  | Some c => c
  | None => Ascii.zero
  end.

Fixpoint index_from (c : ascii) (s : string) (i : Z) : option Z :=
  match s with
  | EmptyString => None
  | String d s' => if Ascii.eqb c d then Some i else index_from c s' (i + 1)
  end.

(** [enc.decodeMap[c]]; [None] stands for the 0xff entry. *)
Definition decode_char (c : ascii) : option Z := index_from c encodeStd 0.

(** [byte(z)]: truncation to eight bits. *)
Definition byte_of_Z (z : Z) : byte :=
  match Byte.of_N (Z.to_N (z mod 256)) with
  | Some b => b
  | None => x00
  end.

(** [enc.encode[val>>k & 0x3F]]. *)
Definition sextet_char (val k : Z) : ascii :=
  encode_char (Z.land (Z.shiftr val k) 63).

(** [EncodeToString]: full three-byte groups, then a remainder of one or
    two bytes written without padding. *)
Fixpoint EncodeToString (src : list byte) : string :=
  match src with
  | [] => ""
  | [a] =>
      let val := Z.shiftl (u8 a) 16 in
      String (sextet_char val 18) (String (sextet_char val 12) "")
  | [a; b] =>
      let val := Z.lor (Z.shiftl (u8 a) 16) (Z.shiftl (u8 b) 8) in
      String (sextet_char val 18)
        (String (sextet_char val 12) (String (sextet_char val 6) ""))
  | a :: b :: c :: rest =>
      let val :=
        Z.lor (Z.lor (Z.shiftl (u8 a) 16) (Z.shiftl (u8 b) 8)) (u8 c) in
      String (sextet_char val 18)
        (String (sextet_char val 12)
           (String (sextet_char val 6)
              (String (sextet_char val 0) (EncodeToString rest))))
  end.

Definition is_cr_or_lf (c : ascii) : bool :=
  Ascii.eqb c "010"%char || Ascii.eqb c "013"%char.

(** The decoder reads its input one character at a time: alphabet
    characters give their six-bit value, carriage returns and line feeds
    are skipped, anything else is corrupt input. *)
Fixpoint sextets (s : string) : option (list Z) :=
  match s with
  | EmptyString => Some []
  | String c s' =>
      match decode_char c with
      | Some v => option_map (cons v) (sextets s')
      | None => if is_cr_or_lf c then sextets s' else None
      end
  end.

(** Quanta of four six-bit values give three bytes; a final quantum of two
    or three values gives one or two bytes (trailing bits are not checked:
    the encoding is not strict); a final quantum of one value is corrupt. *)
Fixpoint quanta (l : list Z) : option (list byte) :=
  match l with
  | [] => Some []
  | [_] => None
  | [a; b] =>
      let val := Z.lor (Z.shiftl a 18) (Z.shiftl b 12) in
      Some [byte_of_Z (Z.shiftr val 16)]
  | [a; b; c] =>
      let val := Z.lor (Z.lor (Z.shiftl a 18) (Z.shiftl b 12)) (Z.shiftl c 6) in
      Some [byte_of_Z (Z.shiftr val 16); byte_of_Z (Z.shiftr val 8)]
  | a :: b :: c :: d :: rest =>
      let val :=
        Z.lor (Z.lor (Z.lor (Z.shiftl a 18) (Z.shiftl b 12)) (Z.shiftl c 6)) d in
      option_map
        (fun t => byte_of_Z (Z.shiftr val 16) :: byte_of_Z (Z.shiftr val 8)
                  :: byte_of_Z val :: t)
        (quanta rest)
  end.

(** [DecodeString]; the byte offset carried by [CorruptInputError] is not
    tracked. *)
Definition DecodeString (s : string) : result (list byte) :=
  match sextets s with
  | None => Err CorruptInput
  | Some l =>
      match quanta l with
      | None => Err CorruptInput
      | Some bs => Ok bs
      end
  end.

(** ** strings.Split with a one-byte separator *)

Fixpoint Split (s : string) (sep : ascii) : list string :=
  match s with
  | EmptyString => [EmptyString]
  | String c s' =>
      if Ascii.eqb c sep then EmptyString :: Split s' sep
      else
        match Split s' sep with
        | h :: t => String c h :: t
        | [] => [String c EmptyString]
        end
  end.

(** ** strconv *)

Definition digit_value (c : ascii) : option Z :=
  let n := Z.of_N (N_of_ascii c) in
  if (48 <=? n) && (n <=? 57) then Some (n - 48) else None.

(** The digit loop of [ParseUint(s, 10, bitSize)] with accumulator [n]:
    a non-digit is a syntax error, a value above [maxVal] a range error. *)
Fixpoint parse_digits (cutoff maxVal n : Z) (s : string) : result Z :=
  match s with
  | EmptyString => Ok n
  | String c s' =>
      match digit_value c with
      | None => Err NumSyntax
      | Some d =>
          if n >=? cutoff then Err NumRange
          else
            let n1 := n * 10 + d in
            if n1 >? maxVal then Err NumRange
            else parse_digits cutoff maxVal n1 s'
      end
  end.

Definition maxUint64 : Z := 2 ^ 64 - 1.

(** [strconv.ParseUint(s, 10, 64)]. *)
Definition ParseUint (s : string) : result Z :=
  match s with
  | EmptyString => Err NumSyntax
  | _ => parse_digits (maxUint64 / 10 + 1) maxUint64 0 s
  end.

(** [strconv.ParseInt(s, 10, 64)]. *)
Definition ParseInt (s : string) : result Z :=
  match s with
  | EmptyString => Err NumSyntax
  | String c s' =>
      let neg := Ascii.eqb c "-"%char in
      let digits := if Ascii.eqb c "+"%char || neg then s' else s in
      match ParseUint digits with
      | Err e => Err e
      | Ok un =>
          let cutoff := 2 ^ 63 in
          if negb neg && (un >=? cutoff) then Err NumRange
          else if neg && (un >? cutoff) then Err NumRange
          else Ok (if neg then - un else un)
      end
  end.

(** ** fmt: scanning *)

(** [SkipSpace] as [Sscanf] runs it (a newline is not a space): runes for
    which [isSpace] holds are dropped, a line feed is an error.  The
    multi-byte cases are the UTF-8 encodings of U+0085, U+00A0, U+1680,
    U+2000..U+200A, U+2028, U+2029, U+202F, U+205F and U+3000. *)
Fixpoint SkipSpace (s : string) : result string :=
  match s with
  | EmptyString => Ok s
  | String c r =>
      let n := N_of_ascii c in
      if (n =? 10)%N then Err UnexpectedNewline
      else if ((9 <=? n) && (n <=? 13) || (n =? 32))%N then SkipSpace r
      else
        match r with
        | String d r' =>
            let m := N_of_ascii d in
            if ((n =? 194) && ((m =? 133) || (m =? 160)))%N then SkipSpace r'
            else
              match r' with
              | String e r'' =>
                  let k := N_of_ascii e in
                  if ((n =? 225) && (m =? 154) && (k =? 128)
                      || (n =? 226) && (m =? 128)
                         && ((128 <=? k) && (k <=? 138)
                             || (k =? 168) || (k =? 169) || (k =? 175))
                      || (n =? 226) && (m =? 129) && (k =? 159)
                      || (n =? 227) && (m =? 128) && (k =? 128))%N
                  then SkipSpace r''
                  else Ok s
              | EmptyString => Ok s
              end
        | EmptyString => Ok s
        end
  end.

(** The digit set [scanNumber] accepts for [%d]: "0123456789". *)
Definition is_decimal_digit (c : ascii) : bool :=
  match digit_value c with
  | Some _ => true
  | None => false
  end.

(** The run of accepted characters at the head of the input, and the rest. *)
Fixpoint accept_run (s : string) : string * string :=
  match s with
  | EmptyString => (EmptyString, EmptyString)
  | String c r =>
      if is_decimal_digit c then
        let (tok, rest) := accept_run r in (String c tok, rest)
      else (EmptyString, s)
  end.

(** [scanNumber]: at least one accepted character, then all that follow. *)
Definition scanNumber (s : string) : result (string * string) :=
  match s with
  | EmptyString => Err UnexpectedEOF
  | String c _ =>
      if is_decimal_digit c then Ok (accept_run s)
      else Err ExpectedInteger
  end.

(** [scanUint('d', bitSize)]. *)
Definition scanUint (bitSize : Z) (s : string) : result (Z * string) :=
  match SkipSpace s with
  | Err e => Err e
  | Ok EmptyString => Err UnexpectedEOF
  | Ok s1 =>
      match scanNumber s1 with
      | Err e => Err e
      | Ok (tok, rest) =>
          match ParseUint tok with
          | Err e => Err e
          | Ok i =>
              if i mod 2 ^ bitSize =? i then Ok (i, rest)
              else Err IntegerOverflow
          end
      end
  end.

(** [scanInt('d', 64)]: an optional sign, then a number. *)
Definition scanInt (s : string) : result (Z * string) :=
  match SkipSpace s with
  | Err e => Err e
  | Ok EmptyString => Err UnexpectedEOF
  | Ok (String c r as s1) =>
      let signed := Ascii.eqb c "+"%char || Ascii.eqb c "-"%char in
      match scanNumber (if signed then r else s1) with
      | Err e => Err e
      | Ok (tok, rest) =>
          match ParseInt (if signed then String c tok else tok) with
          | Err e => Err e
          | Ok i => Ok (i, rest)
          end
      end
  end.

(** A format is a sequence of literal characters and [%d] verbs. *)
Inductive directive : Type :=
| Lit (c : ascii)
| VerbD.

Fixpoint parse_format (format : string) : list directive :=
  match format with
  | String "%" (String "d" r) => VerbD :: parse_format r
  | String c r => Lit c :: parse_format r
  | EmptyString => []
  end.

(** The operand a verb stores into: [*int], or [*uintN]. *)
Inductive operand : Type :=
| IntPtr
| UintPtr (bitSize : Z).

Definition scanOne (op : operand) (s : string) : result (Z * string) :=
  match op with
  | IntPtr => scanInt s
  | UintPtr bits => scanUint bits s
  end.

(** [doScanf]: a literal must be the next input character; a verb skips
    spaces and scans one operand.  Input left over at the end of the format
    is not an error. *)
Fixpoint doScanf (fmt : list directive) (ops : list operand) (s : string)
  : result (list Z) :=
  match fmt with
  | [] => Ok []
  | Lit c :: fmt' =>
      match s with
      | EmptyString => Err UnexpectedEOF
      | String d r =>
          if Ascii.eqb c d then doScanf fmt' ops r else Err InputMismatch
      end
  | VerbD :: fmt' =>
      match ops with
      | [] => Err TooFewOperands
      | op :: ops' =>
          match SkipSpace s with
          | Err e => Err e
          | Ok s1 =>
              match scanOne op s1 with
              | Err e => Err e
              | Ok (v, r) =>
                  match doScanf fmt' ops' r with
                  | Err e => Err e
                  | Ok vs => Ok (v :: vs)
                  end
              end
          end
      end
  end.

Definition Sscanf (str format : string) (ops : list operand)
  : result (list Z) :=
  doScanf (parse_format format) ops str.

(** ** fmt: printing *)

(** [%d] of an integer. *)
Definition format_d (z : Z) : string := NilZero.string_of_int (Z.to_int z).

(** ** crypto/rand *)

(** The entropy source: a read either fails or fills the whole buffer. *)
Record Reader : Type := mkReader {
  fails : bool;
  stream : nat -> byte
}.

Definition rand_Read (r : Reader) (n : nat) : result (list byte) :=
  if fails r then Err RandFailure else Ok (map (stream r) (seq 0 n)).

(** ** database/sql/driver *)

(** What a driver hands to [Scan] and accepts from [Value]. *)
Inductive driver_Value : Type :=
| VNil
| VString (s : string)
| VBytes (b : list byte)
| VInt64 (i : Z)
| VBool (b : bool).

(** ** The package, continued *)

(** [Bytes]: [n] random bytes. *)
Definition Bytes (r : Reader) (n : Z) : option (list byte) * option error :=
  match rand_Read r (Z.to_nat n) with
  | Err e => (None, Some (Wrapf "failed to generate random bytes" (LibError e)))
  | Ok b => (Some b, None)
  end.

(** [(a *Argon2) makeSalt]: the receiver afterwards, and the error. *)
Definition makeSalt (r : Reader) (a : Argon2) : Argon2 * option error :=
  match salt a with
  | Some _ => (a, None)
  | None =>
      match Bytes r saltLength with
      | (_, Some err) => (a, Some err)
      | (s, None) => (set_salt a s, None)
      end
  end.

(** [(a *Argon2) makeHash]: the receiver afterwards. *)
Definition makeHash (core : kdf) (a : Argon2) (toHash : string)
  : outcome Argon2 :=
  match IDKey core (bytes_of_string toHash) (elems (salt a))
              (iterations a) (memory a) (parallelism a) (keyLength a) with
  | Panicked msg => Panicked msg
  | Returned key => Returned (set_hashed a (Some key))
  end.

(** [(a Argon2) String]. *)
Definition Argon2_String (a : Argon2) : string :=
  if negb (isValid a) then ""
  else
    ("$argon2id$v=" ++ format_d argon2_Version
     ++ "$m=" ++ format_d (memory a)
     ++ ",t=" ++ format_d (iterations a)
     ++ ",p=" ++ format_d (parallelism a)
     ++ "$" ++ EncodeToString (elems (salt a))
     ++ "$" ++ EncodeToString (elems (hashed a)))%string.

(** [(a Argon2) Value]. *)
Definition Value (a : Argon2) : driver_Value * option error :=
  if negb (isValid a) then (VNil, None)
  else (VString (Argon2_String a), None).

(** [(a Argon2) Compare]. *)
Definition Compare (core : kdf) (a : Argon2) (toCompare : string)
  : outcome bool :=
  let b := mkArgon2 (salt a) (iterations a) (memory a) (parallelism a)
                    (keyLength a) None true in
  match makeHash core b toCompare with
  | Panicked msg => Panicked msg
  | Returned b' =>
      Returned (ConstantTimeCompare (elems (hashed a)) (elems (hashed b')) =? 1)
  end.

(** [New]. *)
Definition New (core : kdf) (r : Reader) (toHash : string)
  : outcome (Argon2 * option error) :=
  let a := mkArgon2 None iterations_default memory_default
                    parallelism_default keyLength_default None true in
  match makeSalt r a with
  | (_, Some err) => Returned (zero, Some err)
  | (a1, None) =>
      match makeHash core a1 toHash with
      | Panicked msg => Panicked msg
      | Returned a2 => Returned (a2, None)
      end
  end.

(** [MustNew]. *)
Definition MustNew (core : kdf) (r : Reader) (toHash : string)
  : outcome Argon2 :=
  match New core r toHash with
  | Panicked msg => Panicked msg
  | Returned (_, Some err) => Panicked "failed to create"
  | Returned (a, None) => Returned a
  end.

(** [NewByEncoded]. *)
Definition NewByEncoded (encoded : string) : Argon2 * option error :=
  let vals := Split encoded "$" in
  if negb (Nat.eqb (List.length vals) encodedSlicesCount) then
    (zero, Some ErrInvalidEncodedHash)
  else
    match Sscanf (nth 2 vals "") "v=%d" [IntPtr] with
    | Err e => (zero, Some (Wrapf "failed to decode" (LibError e)))
    | Ok vs =>
        let version := nth 0 vs 0 in
        if negb (version =? argon2_Version) then
          (zero, Some ErrIncompatibleVersion)
        else
          match DecodeString (nth 4 vals "") with
          | Err e =>
              (zero, Some (Wrapf "failed to decode salt value" (LibError e)))
          | Ok salt_ =>
              match DecodeString (nth 5 vals "") with
              | Err e =>
                  (zero,
                   Some (Wrapf "failed to decode hashed value" (LibError e)))
              | Ok hashed_ =>
                  match Sscanf (nth 3 vals "") "m=%d,t=%d,p=%d"
                               [UintPtr 32; UintPtr 32; UintPtr 8] with
                  | Err e =>
                      (zero,
                       Some (Wrapf "failed to decode hash options"
                                   (LibError e)))
                  | Ok ws =>
                      let m := nth 0 ws 0 in
                      let i := nth 1 ws 0 in
                      let p := nth 2 ws 0 in
                      (mkArgon2 (Some salt_) i m p
                                (Z.of_nat (List.length hashed_) mod 2 ^ 32)
                                (Some hashed_) true,
                       None)
                  end
              end
          end
    end.

(** [(a *Argon2) Scan]: the receiver afterwards, and the error. *)
Definition Scan (a : Argon2) (src : driver_Value) : Argon2 * option error :=
  match src with
  | VNil => (set_isValid a false, None)
  | VString s =>
      match NewByEncoded s with
      | (a', Some err) =>
          (a', Some (Wrapf "cannot scan due to decode error" err))
      | (a', None) => (a', None)
      end
  | _ => (a, Some (Wrapf "expected a string" ErrScan))
  end.

(** ** The error kinds of the specification *)

Definition is_InvalidFormat (e : error) : bool :=
  errors_Is e ErrInvalidEncodedHash.

Definition is_IncompatibleVersion (e : error) : bool :=
  errors_Is e ErrIncompatibleVersion.

(** A decode failure is one of the four wrapped library errors of
    [NewByEncoded]. *)
Definition is_DecodeFailure (e : error) : bool :=
  match e with
  | Wrapf msg (LibError _) =>
      String.eqb msg "failed to decode"
      || String.eqb msg "failed to decode salt value"
      || String.eqb msg "failed to decode hashed value"
      || String.eqb msg "failed to decode hash options"
  | _ => false
  end.

(** ** A sample instance of the external primitives

    Used to run the definitions on concrete inputs: a key whose bytes mix
    every argument, and an entropy source that counts. *)

Definition sum_bytes (l : list byte) : Z :=
  fold_right (fun b acc => u8 b + acc) 0 l.

Definition sample_kdf : kdf :=
  fun password salt_ time mem threads keyLen i =>
    byte_of_Z (sum_bytes password + 3 * sum_bytes salt_
               + time + mem + threads + keyLen + 7 * Z.of_nat i).

Definition sample_reader : Reader :=
  mkReader false (fun i => byte_of_Z (Z.of_nat i * 37 + 11)).

Definition broken_reader : Reader := mkReader true (fun _ => x00).

(** Whether the byte [c] occurs in [s]. *)
Fixpoint contains (c : ascii) (s : string) : bool :=
  match s with
  | EmptyString => false
  | String d r => Ascii.eqb d c || contains c r
  end.

(** A call [x.m(...)] of a value-receiver method on a variable [x]: the
    body runs on a copy of [x].  The pair is the result of the call and the
    content of [x] after it. *)
Definition call_by_value {R : Type} (m : Argon2 -> R) (x : Argon2)
  : R * Argon2 :=
  (m x, x).

(** The data-model invariant: salt and key are both absent, or both
    present with a key of [keyLength] bytes. *)
Definition invariant (a : Argon2) : Prop :=
  (salt a = None /\ hashed a = None)
  \/ (exists s h, salt a = Some s /\ hashed a = Some h
                  /\ Z.of_nat (List.length h) = keyLength a).

(** Inputs whose length fits the 32-bit key-length field. *)
Definition fits_uint32 (s : string) : Prop :=
  Z.of_nat (String.length s) < 2 ^ 32.

Definition src_fits (src : driver_Value) : Prop :=
  match src with
  | VString s => fits_uint32 s
  | _ => True
  end.

(** The values the exported operations can produce: the zero value, what
    [New] and [NewByEncoded] return (on success and on failure), and what
    [Scan] leaves in its receiver. *)
Inductive reachable (core : kdf) : Argon2 -> Prop :=
| reach_zero : reachable core zero
| reach_New (r : Reader) (toHash : string) (a : Argon2) (err : option error) :
    New core r toHash = Returned (a, err) -> reachable core a
| reach_NewByEncoded (encoded : string) (a : Argon2) (err : option error) :
    fits_uint32 encoded ->
    NewByEncoded encoded = (a, err) -> reachable core a
| reach_Scan (a : Argon2) (src : driver_Value) (a' : Argon2)
    (err : option error) :
    reachable core a -> src_fits src ->
    Scan a src = (a', err) -> reachable core a'.

(** The number a sequence of decimal digits denotes, continuing from the
    value [acc] of the digits before it. *)
Fixpoint uint_value (acc : Z) (d : Decimal.uint) : Z :=
  match d with
  | Decimal.Nil => acc
  | Decimal.D0 l => uint_value (acc * 10 + 0) l
  | Decimal.D1 l => uint_value (acc * 10 + 1) l
  | Decimal.D2 l => uint_value (acc * 10 + 2) l
  | Decimal.D3 l => uint_value (acc * 10 + 3) l
  | Decimal.D4 l => uint_value (acc * 10 + 4) l
  | Decimal.D5 l => uint_value (acc * 10 + 5) l
  | Decimal.D6 l => uint_value (acc * 10 + 6) l
  | Decimal.D7 l => uint_value (acc * 10 + 7) l
  | Decimal.D8 l => uint_value (acc * 10 + 8) l
  | Decimal.D9 l => uint_value (acc * 10 + 9) l
  end.

(** Whether the input starts with a character [scanNumber] accepts. *)
Definition starts_with_digit (s : string) : bool :=
  match s with
  | EmptyString => false
  | String c _ => is_decimal_digit c
  end.

(** A valid value as the constructors make them: salt and key present, the
    key of [keyLength] bytes, every parameter within its field's width. *)
Definition well_formed (a : Argon2) : Prop :=
  isValid a = true
  /\ (exists s h, salt a = Some s /\ hashed a = Some h
                  /\ keyLength a = Z.of_nat (List.length h))
  /\ 0 <= iterations a < 2 ^ 32
  /\ 0 <= memory a < 2 ^ 32
  /\ 0 <= parallelism a < 2 ^ 8
  /\ keyLength a < 2 ^ 32.

(** ** The accepted inputs, described on the text *)

Fixpoint all_digits (s : string) : bool :=
  match s with
  | EmptyString => true
  | String c r => is_decimal_digit c && all_digits r
  end.

(** A numeral: a non-empty run of decimal digits (leading zeros allowed). *)
Definition numeral (s : string) : Prop := s <> "" /\ all_digits s = true.

(** The number a run of digits denotes in base ten, continuing from
    [acc]. *)
Fixpoint numeral_value_from (acc : Z) (s : string) : Z :=
  match s with
  | EmptyString => acc
  | String c r => numeral_value_from (acc * 10 + (Z.of_N (N_of_ascii c) - 48)) r
  end.

Definition numeral_value (s : string) : Z := numeral_value_from 0 s.

Definition string_of_codes (l : list N) : string :=
  fold_right (fun n s => String (ascii_of_N n) s) EmptyString l.

(** The space characters other than the line feed, as UTF-8 byte
    sequences: tab, vertical tab, form feed, carriage return, space,
    U+0085, U+00A0, U+1680, U+2000 to U+200A, U+2028, U+2029, U+202F,
    U+205F, U+3000. *)
Definition space_runes : list string :=
  map string_of_codes
    [[9]; [11]; [12]; [13]; [32]; [194; 133]; [194; 160]; [225; 154; 128];
     [226; 128; 128]; [226; 128; 129]; [226; 128; 130]; [226; 128; 131];
     [226; 128; 132]; [226; 128; 133]; [226; 128; 134]; [226; 128; 135];
     [226; 128; 136]; [226; 128; 137]; [226; 128; 138]; [226; 128; 168];
     [226; 128; 169]; [226; 128; 175]; [226; 129; 159]; [227; 128; 128]]%N.

(** A possibly empty run of such space characters. *)
Inductive blank : string -> Prop :=
| blank_nil : blank EmptyString
| blank_cons (u s : string) :
    In u space_runes -> blank s -> blank (u ++ s).

(** The options fields [NewByEncoded] accepts, with the numbers it reads:
    "m=", "t=" and "p=" in that order, separated by commas, each followed
    by optional spaces and a numeral; the three values fit 32, 32 and 8
    bits; anything may follow the last numeral except a further digit. *)
Definition options_accepted (f : string) (m t p : Z) : Prop :=
  exists b1 n1 b2 n2 b3 n3 rest,
    f = ("m=" ++ b1 ++ n1 ++ ",t=" ++ b2 ++ n2 ++ ",p=" ++ b3 ++ n3 ++ rest)%string
    /\ blank b1 /\ blank b2 /\ blank b3
    /\ numeral n1 /\ numeral n2 /\ numeral n3
    /\ starts_with_digit rest = false
    /\ m = numeral_value n1 /\ t = numeral_value n2 /\ p = numeral_value n3
    /\ m < 2 ^ 32 /\ t < 2 ^ 32 /\ p < 2 ^ 8.

(** The input without its carriage returns and line feeds. *)
Fixpoint strip_newlines (s : string) : string :=
  match s with
  | EmptyString => EmptyString
  | String c r =>
      if is_cr_or_lf c then strip_newlines r else String c (strip_newlines r)
  end.

Fixpoint all_in_alphabet (s : string) : bool :=
  match s with
  | EmptyString => true
  | String c r => contains c encodeStd && all_in_alphabet r
  end.

(** The base64 fields [NewByEncoded] accepts: once carriage returns and
    line feeds are dropped, only characters of the standard alphabet, and
    not one character more than a multiple of four. *)
Definition base64_accepted (s : string) : Prop :=
  all_in_alphabet (strip_newlines s) = true
  /\ (String.length (strip_newlines s) mod 4 <> 1)%nat.

(** ** The fields in the words of the specification *)

(** [m=<uint>,t=<uint>,p=<uint>]: the three keys in that order, each with
    an unsigned decimal number, and nothing else. *)
Definition written_as_options (f : string) : Prop :=
  exists m t p,
    numeral m /\ numeral t /\ numeral p
    /\ f = ("m=" ++ m ++ ",t=" ++ t ++ ",p=" ++ p)%string.

(** Unpadded standard base64: the encoding of some byte sequence. *)
Definition written_as_base64 (s : string) : Prop :=
  exists bs, s = EncodeToString bs.

(** ** Proof automation *)

(** Replaces the closed powers of two of the goal and the hypotheses by
    their values, for [lia]. *)
Ltac pow2 :=
  repeat match goal with
  | |- context [2 ^ (Zpos ?p)] =>
      let v := eval vm_compute in (2 ^ (Zpos p)) in
      change (2 ^ (Zpos p)) with v
  | H : context [2 ^ (Zpos ?p)] |- _ =>
      let v := eval vm_compute in (2 ^ (Zpos p)) in
      change (2 ^ (Zpos p)) with v in H
  end.

(** Linear arithmetic with division and remainder by constants. *)
Ltac dlia := pow2; Z.div_mod_to_equations; lia.

(** Splits a goal about [NewByEncoded] along the checks of its body. *)
Ltac parse_cases :=
  unfold NewByEncoded; cbv zeta;
  repeat match goal with
  | |- context [if negb ?b then _ else _] =>
      let E := fresh "Hcheck" in destruct b eqn:E; cbn [negb]
  | |- context [match Sscanf ?x ?y ?z with _ => _ end] =>
      let E := fresh "Hscan" in destruct (Sscanf x y z) eqn:E
  | |- context [match DecodeString ?x with _ => _ end] =>
      let E := fresh "Hdec" in destruct (DecodeString x) eqn:E
  end.

(** Closes a goal [In u space_runes] for a closed [u]. *)
Ltac in_space_runes :=
  solve [ unfold space_runes; cbn [map string_of_codes fold_right In];
          repeat (first [left; reflexivity | right]) ].

(** * Properties *)

(** ** Bytes and constant-time comparison *)

Lemma u8_range (b : byte) : 0 <= u8 b < 256.
Proof.
  unfold u8. pose proof (Byte.to_N_bounded b). lia.
Qed.

Lemma byte_of_Z_u8 (b : byte) : byte_of_Z (u8 b) = b.
Proof.
  unfold byte_of_Z. rewrite Z.mod_small by apply u8_range.
  unfold u8. rewrite N2Z.id, Byte.of_to_N. reflexivity.
Qed.

Lemma byte_of_Z_congr (x y : Z) :
  x mod 256 = y mod 256 -> byte_of_Z x = byte_of_Z y.
Proof. unfold byte_of_Z. now intros ->. Qed.

Lemma byte_of_Z_eq (x : Z) (b : byte) : x mod 256 = u8 b -> byte_of_Z x = b.
Proof.
  intros H. rewrite <- (byte_of_Z_u8 b). apply byte_of_Z_congr.
  rewrite H. symmetry. apply Z.mod_small, u8_range.
Qed.

Lemma u8_inj (a b : byte) : u8 a = u8 b -> a = b.
Proof.
  intros H. rewrite <- (byte_of_Z_u8 a), <- (byte_of_Z_u8 b). now rewrite H.
Qed.

Lemma ConstantTimeByteEq_zero (v : Z) :
  0 <= v < 2 ^ 31 -> (ConstantTimeByteEq v 0 =? 1) = (v =? 0).
Proof.
  intros Hv. unfold ConstantTimeByteEq.
  rewrite Z.lxor_0_r, Z.shiftr_div_pow2 by lia.
  change (2 ^ 32) with 4294967296 in *.
  change (2 ^ 31) with 2147483648 in *.
  destruct (Z.eqb_spec v 0) as [->|Hne].
  - reflexivity.
  - apply Z.eqb_neq.
    rewrite (Z.mod_small (v - 1)) by lia.
    rewrite Z.div_small by lia. lia.
Qed.

Lemma or_xor_nonneg (x y : list byte) :
  forall v, 0 <= v -> 0 <= or_xor v x y.
Proof.
  revert y. induction x as [|a x IH]; intros [|b y] v Hv; simpl; auto.
  apply IH. apply Z.lor_nonneg. split; [assumption|].
  apply Z.lxor_nonneg. pose proof (u8_range a). pose proof (u8_range b).
  split; lia.
Qed.

Lemma lt_pow2_bits (n k : Z) :
  0 <= n < 2 ^ k -> forall i, k <= i -> Z.testbit n i = false.
Proof.
  intros [Hn Hlt] i Hi.
  destruct (Z.eq_dec n 0) as [->|Hne]; [apply Z.bits_0|].
  apply Z.bits_above_log2; [assumption|].
  assert (Z.log2 n < k); [|lia].
  apply Z.log2_lt_pow2; lia.
Qed.

Lemma bits_lt_pow2 (n k : Z) :
  0 <= k -> 0 <= n -> (forall i, k <= i -> Z.testbit n i = false) -> n < 2 ^ k.
Proof.
  intros Hk Hn Hbits.
  destruct (Z.eq_dec n 0) as [->|Hne]; [apply Z.pow_pos_nonneg; lia|].
  destruct (Z.lt_ge_cases n (2 ^ k)) as [|Hge]; [assumption|exfalso].
  assert (Hlog : k <= Z.log2 n) by (apply Z.log2_le_pow2; lia).
  specialize (Hbits _ Hlog). rewrite Z.bit_log2 in Hbits by lia. discriminate.
Qed.

Lemma or_xor_bound (x y : list byte) :
  forall v, 0 <= v < 2 ^ 8 -> 0 <= or_xor v x y < 2 ^ 8.
Proof.
  revert y. induction x as [|a x IH]; intros [|b y] v Hv; simpl; auto.
  apply IH.
  pose proof (u8_range a) as Ha. pose proof (u8_range b) as Hb.
  change 256 with (2 ^ 8) in Ha, Hb.
  assert (Hx : 0 <= Z.lxor (u8 a) (u8 b)) by (apply Z.lxor_nonneg; lia).
  split; [apply Z.lor_nonneg; lia|].
  apply bits_lt_pow2; [lia|apply Z.lor_nonneg; lia|].
  intros i Hi. rewrite Z.lor_spec, Z.lxor_spec.
  rewrite (lt_pow2_bits v 8), (lt_pow2_bits (u8 a) 8), (lt_pow2_bits (u8 b) 8)
    by assumption.
  reflexivity.
Qed.

Lemma or_xor_zero (x y : list byte) :
  List.length x = List.length y ->
  forall v, or_xor v x y = 0 <-> v = 0 /\ x = y.
Proof.
  revert y. induction x as [|a x IH]; intros [|b y] Hlen v; simpl in *;
    try discriminate.
  - intuition.
  - injection Hlen as Hlen. rewrite (IH y Hlen). rewrite Z.lor_eq_0_iff.
    split.
    + intros [[Hv Hab] ->]. apply Z.lxor_eq in Hab. apply u8_inj in Hab.
      now subst.
    + intros [Hv Heq]. injection Heq as -> ->.
      now rewrite Z.lxor_nilpotent.
Qed.

Lemma ConstantTimeCompare_eq (x y : list byte) :
  (ConstantTimeCompare x y =? 1) = true <-> x = y.
Proof.
  unfold ConstantTimeCompare.
  destruct (Nat.eqb_spec (List.length x) (List.length y)) as [Hlen|Hlen];
    cbn [negb].
  - rewrite ConstantTimeByteEq_zero.
    + rewrite Z.eqb_eq, (or_xor_zero x y Hlen). intuition.
    + pose proof (or_xor_bound x y 0 ltac:(lia)).
      change (2 ^ 8) with 256 in *. change (2 ^ 31) with 2147483648. lia.
  - split; [discriminate|]. intros ->. contradiction.
Qed.

(** ** Base64 *)

Lemma lor_shiftl_add (hi lo k : Z) :
  0 <= k -> 0 <= lo < 2 ^ k -> Z.lor (Z.shiftl hi k) lo = hi * 2 ^ k + lo.
Proof.
  intros Hk Hlo.
  assert (Hdisj : Z.land (Z.shiftl hi k) lo = 0).
  { apply Z.bits_inj'. intros i Hi. rewrite Z.land_spec, Z.bits_0.
    destruct (Z.lt_ge_cases i k) as [Hlt|Hge].
    - rewrite Z.shiftl_spec_low by assumption. reflexivity.
    - rewrite (lt_pow2_bits lo k) by assumption. apply andb_false_r. }
  rewrite <- Z.lxor_lor by assumption.
  rewrite <- Z.add_nocarry_lxor by assumption.
  now rewrite Z.shiftl_mul_pow2.
Qed.

Lemma lor_aligned_add (x lo k : Z) :
  0 <= k -> x mod 2 ^ k = 0 -> 0 <= lo < 2 ^ k -> Z.lor x lo = x + lo.
Proof.
  intros Hk Hx Hlo.
  assert (Hpos : 0 < 2 ^ k) by (apply Z.pow_pos_nonneg; lia).
  pose proof (Z.div_mod x (2 ^ k) ltac:(lia)) as Hdm. rewrite Hx in Hdm.
  remember (x / 2 ^ k) as q eqn:Hq. clear Hq Hx.
  assert (Hxq : x = q * 2 ^ k) by lia. clear Hdm. subst x.
  rewrite <- Z.shiftl_mul_pow2 by assumption.
  rewrite lor_shiftl_add by assumption.
  now rewrite Z.shiftl_mul_pow2.
Qed.

Lemma land_63 (x : Z) : Z.land x 63 = x mod 64.
Proof. change 63 with (Z.ones 6). now rewrite Z.land_ones by lia. Qed.

(** The 24-bit value of a group of three bytes. *)
Lemma group_value (a b c : Z) :
  0 <= a < 256 -> 0 <= b < 256 -> 0 <= c < 256 ->
  Z.lor (Z.lor (Z.shiftl a 16) (Z.shiftl b 8)) c = a * 65536 + b * 256 + c.
Proof.
  intros Ha Hb Hc.
  rewrite (Z.shiftl_mul_pow2 b) by lia.
  rewrite lor_shiftl_add by dlia.
  rewrite lor_aligned_add with (k := 8); dlia.
Qed.

(** The 24-bit value rebuilt from four six-bit values. *)
Lemma quantum_value (p q r s : Z) :
  0 <= p < 64 -> 0 <= q < 64 -> 0 <= r < 64 -> 0 <= s < 64 ->
  Z.lor (Z.lor (Z.lor (Z.shiftl p 18) (Z.shiftl q 12)) (Z.shiftl r 6)) s
  = p * 262144 + q * 4096 + r * 64 + s.
Proof.
  intros Hp Hq Hr Hs.
  rewrite (Z.shiftl_mul_pow2 q), (Z.shiftl_mul_pow2 r) by lia.
  rewrite lor_shiftl_add by dlia.
  rewrite (lor_aligned_add _ (r * 2 ^ 6) 12) by dlia.
  rewrite (lor_aligned_add _ s 6) by dlia.
  dlia.
Qed.

Lemma sextet_index (val k : Z) :
  0 <= k -> 0 <= Z.land (Z.shiftr val k) 63 < 64.
Proof.
  intros Hk. rewrite land_63. apply Z.mod_pos_bound. lia.
Qed.

Lemma decode_encode_char_all :
  forallb
    (fun n =>
       match decode_char (encode_char (Z.of_nat n)) with
       | Some v => v =? Z.of_nat n
       | None => false
       end)
    (seq 0 64) = true.
Proof. vm_compute. reflexivity. Qed.

Lemma decode_encode_char (i : Z) :
  0 <= i < 64 -> decode_char (encode_char i) = Some i.
Proof.
  intros Hi.
  pose proof decode_encode_char_all as H.
  rewrite forallb_forall in H.
  specialize (H (Z.to_nat i)).
  rewrite Z2Nat.id in H by lia.
  assert (Hin : In (Z.to_nat i) (seq 0 64)) by (apply in_seq; lia).
  specialize (H Hin).
  destruct (decode_char (encode_char i)) as [v|]; [|discriminate].
  apply Z.eqb_eq in H. now subst.
Qed.

Lemma list_ind3 {A : Type} (P : list A -> Prop) :
  P [] -> (forall a, P [a]) -> (forall a b, P [a; b]) ->
  (forall a b c l, P l -> P (a :: b :: c :: l)) ->
  forall l, P l.
Proof.
  intros H0 H1 H2 H3.
  assert (H : forall l, P l /\ (forall a, P (a :: l))
                        /\ (forall a b, P (a :: b :: l))).
  { induction l as [|x l [IH0 [IH1 IH2]]]; auto. }
  intros l. apply H.
Qed.

Lemma sextets_encode_char (i : Z) (s : string) :
  0 <= i < 64 ->
  sextets (String (encode_char i) s) = option_map (cons i) (sextets s).
Proof.
  intros Hi. cbn [sextets]. now rewrite decode_encode_char.
Qed.

(** Decoding inverts encoding, on every byte sequence. *)
Lemma DecodeString_EncodeToString (l : list byte) :
  DecodeString (EncodeToString l) = Ok l.
Proof.
  unfold DecodeString.
  enough (H : exists q, sextets (EncodeToString l) = Some q
                        /\ quanta q = Some l).
  { destruct H as [q [-> ->]]. reflexivity. }
  induction l as [|a|a b|a b c l [q [Hs Hq]]] using list_ind3.
  - exists []. split; reflexivity.
  - pose proof (u8_range a) as Ha.
    cbn [EncodeToString]. unfold sextet_char.
    rewrite !sextets_encode_char by (apply sextet_index; lia).
    eexists. split; [reflexivity|]. cbn [quanta]. do 2 f_equal.
    apply byte_of_Z_eq.
    rewrite !land_63, !Z.shiftr_div_pow2, !Z.shiftl_mul_pow2 by lia.
    rewrite lor_aligned_add with (k := 18) by dlia.
    dlia.
  - pose proof (u8_range a) as Ha. pose proof (u8_range b) as Hb.
    cbn [EncodeToString]. unfold sextet_char.
    rewrite !sextets_encode_char by (apply sextet_index; lia).
    eexists. split; [reflexivity|]. cbn [quanta].
    rewrite (Z.shiftl_mul_pow2 (u8 b)) by lia.
    rewrite (lor_shiftl_add (u8 a)) by dlia.
    remember (u8 a * 2 ^ 16 + u8 b * 2 ^ 8) as val eqn:Hval.
    rewrite !land_63, !(Z.shiftr_div_pow2 val) by lia.
    rewrite (Z.shiftl_mul_pow2 (_ mod 64) 12), (Z.shiftl_mul_pow2 (_ mod 64) 6)
      by lia.
    rewrite lor_shiftl_add by dlia.
    rewrite (lor_aligned_add _ _ 12) by dlia.
    rewrite !Z.shiftr_div_pow2 by lia.
    do 2 f_equal; [|f_equal]; apply byte_of_Z_eq; dlia.
  - pose proof (u8_range a) as Ha. pose proof (u8_range b) as Hb.
    pose proof (u8_range c) as Hc.
    cbn [EncodeToString]. unfold sextet_char.
    rewrite !sextets_encode_char by (apply sextet_index; lia).
    rewrite Hs. eexists. split; [reflexivity|]. cbn [quanta].
    rewrite Hq. cbn [option_map].
    rewrite group_value by assumption.
    remember (u8 a * 65536 + u8 b * 256 + u8 c) as val eqn:Hval.
    rewrite quantum_value by (apply sextet_index; lia).
    rewrite !land_63, !Z.shiftr_div_pow2 by lia.
    do 2 f_equal; [|f_equal; [|f_equal]]; apply byte_of_Z_eq; dlia.
Qed.

Lemma encode_char_not_dollar_all :
  forallb (fun n => negb (Ascii.eqb (encode_char (Z.of_nat n)) "$"%char))
          (seq 0 64) = true.
Proof. vm_compute. reflexivity. Qed.

Lemma encode_char_not_dollar (i : Z) :
  0 <= i < 64 -> Ascii.eqb (encode_char i) "$"%char = false.
Proof.
  intros Hi. pose proof encode_char_not_dollar_all as H.
  rewrite forallb_forall in H. specialize (H (Z.to_nat i)).
  rewrite Z2Nat.id in H by lia.
  apply negb_true_iff, H, in_seq. lia.
Qed.

Lemma contains_sextet_char (val k : Z) (s : string) :
  0 <= k ->
  contains "$" (String (sextet_char val k) s) = contains "$" s.
Proof.
  intros Hk. cbn [contains]. unfold sextet_char.
  now rewrite encode_char_not_dollar by (apply sextet_index; lia).
Qed.

(** The encoder only writes alphabet characters: no field separator. *)
Lemma contains_EncodeToString (l : list byte) :
  contains "$" (EncodeToString l) = false.
Proof.
  induction l as [|a|a b|a b c l IH] using list_ind3;
    cbn [EncodeToString]; rewrite ?contains_sextet_char by lia;
    [reflexivity..|exact IH].
Qed.

(** ** Splitting *)

Lemma Split_no_sep (s : string) (sep : ascii) :
  contains sep s = false -> Split s sep = [s].
Proof.
  induction s as [|c s IH]; cbn [contains Split]; [reflexivity|].
  intros H. apply orb_false_iff in H as [Hc Hs].
  rewrite Hc, (IH Hs). reflexivity.
Qed.

Lemma Split_app (s t : string) (sep : ascii) :
  contains sep s = false ->
  Split (s ++ String sep t) sep = s :: Split t sep.
Proof.
  induction s as [|c s IH]; cbn [contains Split append].
  - intros _. now rewrite Ascii.eqb_refl.
  - intros H. apply orb_false_iff in H as [Hc Hs].
    rewrite Hc, (IH Hs). reflexivity.
Qed.

Lemma Split_not_nil (s : string) (sep : ascii) : Split s sep <> [].
Proof.
  destruct s as [|c s]; cbn [Split]; [discriminate|].
  destruct (Ascii.eqb c sep); [discriminate|].
  destruct (Split s sep); discriminate.
Qed.

(** ** Construction *)

Lemma IDKey_defaults (core : kdf) (pw s : list byte) :
  IDKey core pw s 3 65536 2 32
  = Returned (map (core pw s 3 65536 2 32) (seq 0 32)).
Proof. reflexivity. Qed.

(** What [New] returns, by cases on the entropy source. *)
Lemma New_cases (core : kdf) (r : Reader) (toHash : string) :
  New core r toHash =
  if fails r then
    Returned (zero,
              Some (Wrapf "failed to generate random bytes"
                          (LibError RandFailure)))
  else
    let s := map (stream r) (seq 0 16) in
    Returned
      (mkArgon2 (Some s) 3 65536 2 32
         (Some (map (core (bytes_of_string toHash) s 3 65536 2 32) (seq 0 32)))
         true,
       None).
Proof.
  unfold New, makeSalt, Bytes, rand_Read. cbn [salt].
  destruct (fails r); [reflexivity|].
  cbv zeta. unfold makeHash, set_salt.
  cbn [salt iterations memory parallelism keyLength hashed isValid elems].
  unfold iterations_default, memory_default, parallelism_default,
    keyLength_default.
  change (64 * 1024) with 65536.
  rewrite IDKey_defaults. reflexivity.
Qed.

(** C7.  [New] reads sixteen bytes of salt from the entropy source and
    derives a 32-byte key from the plaintext and that salt with
    iterations = 3, memory = 65536, parallelism = 2.  It returns an error
    exactly when the source fails (and then the zero value); otherwise it
    returns a valid value carrying the salt, the default parameters and
    the key.  It never panics. *)
Theorem New_default_parameters (core : kdf) (r : Reader) (plaintext : string) :
  match New core r plaintext with
  | Panicked _ => False
  | Returned (a, Some err) =>
      fails r = true /\ a = zero
      /\ errors_Is err (LibError RandFailure) = true
  | Returned (a, None) =>
      fails r = false
      /\ exists s key,
           rand_Read r (Z.to_nat saltLength) = Ok s
           /\ List.length s = 16%nat
           /\ IDKey core (bytes_of_string plaintext) s
                    iterations_default memory_default parallelism_default
                    keyLength_default = Returned key
           /\ List.length key = 32%nat
           /\ a = mkArgon2 (Some s) 3 (64 * 1024) 2 32 (Some key) true
  end.
Proof.
  rewrite New_cases. unfold rand_Read.
  destruct (fails r).
  - repeat split.
  - cbv zeta. split; [reflexivity|].
    eexists. eexists.
    split; [reflexivity|].
    split; [now rewrite length_map, length_seq|].
    split; [apply IDKey_defaults|].
    split; [now rewrite length_map, length_seq|].
    reflexivity.
Qed.

(** ** Comparison *)

Lemma Compare_unfold (core : kdf) (a : Argon2) (toCompare : string) :
  Compare core a toCompare =
  match IDKey core (bytes_of_string toCompare) (elems (salt a))
              (iterations a) (memory a) (parallelism a) (keyLength a) with
  | Panicked msg => Panicked msg
  | Returned key =>
      Returned (ConstantTimeCompare (elems (hashed a)) key =? 1)
  end.
Proof.
  unfold Compare, makeHash.
  cbn [salt iterations memory parallelism keyLength].
  destruct IDKey; reflexivity.
Qed.

(** C2.  [a.Compare(c)] leaves [a] as it was, and returns true exactly
    when the key derived from [c] with the salt, iterations, memory,
    parallelism and key length stored in [a] is the byte sequence stored
    in [a.hashed]. *)
Theorem Compare_true_iff (core : kdf) (a : Argon2) (candidate : string) :
  let (res, a') := call_by_value (fun x => Compare core x candidate) a in
  a' = a
  /\ (res = Returned true <->
      IDKey core (bytes_of_string candidate) (elems (salt a))
            (iterations a) (memory a) (parallelism a) (keyLength a)
      = Returned (elems (hashed a))).
Proof.
  unfold call_by_value. split; [reflexivity|].
  rewrite Compare_unfold.
  destruct IDKey as [key|msg].
  - split.
    + intros H. injection H as H.
      apply ConstantTimeCompare_eq in H. now rewrite H.
    + intros H. injection H as ->. f_equal.
      now apply ConstantTimeCompare_eq.
  - split; discriminate.
Qed.



(** ** Parsing a rendered value *)

Lemma Sscanf_version_19 : Sscanf "v=19" "v=%d" [IntPtr] = Ok [19].
Proof. vm_compute. reflexivity. Qed.

Lemma Sscanf_default_options :
  Sscanf "m=65536,t=3,p=2" "m=%d,t=%d,p=%d" [UintPtr 32; UintPtr 32; UintPtr 8]
  = Ok [65536; 3; 2].
Proof. vm_compute. reflexivity. Qed.

(** The rendering of a valid value with the default parameters. *)
Lemma Argon2_String_defaults (s h : list byte) :
  Argon2_String (mkArgon2 (Some s) 3 65536 2 32 (Some h) true)
  = ("$argon2id$v=19$m=65536,t=3,p=2$"
     ++ EncodeToString s ++ String "$" (EncodeToString h))%string.
Proof. reflexivity. Qed.

Lemma Split_rendered_defaults (s h : list byte) :
  Split ("$argon2id$v=19$m=65536,t=3,p=2$"
         ++ EncodeToString s ++ String "$" (EncodeToString h)) "$"
  = [""; "argon2id"; "v=19"; "m=65536,t=3,p=2";
     EncodeToString s; EncodeToString h].
Proof.
  change ("$argon2id$v=19$m=65536,t=3,p=2$"
          ++ EncodeToString s ++ String "$" (EncodeToString h))%string
    with (""
          ++ String "$"
               ("argon2id"
                ++ String "$"
                     ("v=19"
                      ++ String "$"
                           ("m=65536,t=3,p=2"
                            ++ String "$"
                                 (EncodeToString s
                                  ++ String "$" (EncodeToString h))))))%string.
  rewrite !Split_app by (reflexivity || apply contains_EncodeToString).
  rewrite Split_no_sep by apply contains_EncodeToString.
  reflexivity.
Qed.

(** Parsing the rendering of a default-parameter value with a 32-byte key
    gives the value back. *)
Lemma NewByEncoded_rendered_defaults (s h : list byte) :
  List.length h = 32%nat ->
  NewByEncoded (Argon2_String (mkArgon2 (Some s) 3 65536 2 32 (Some h) true))
  = (mkArgon2 (Some s) 3 65536 2 32 (Some h) true, None).
Proof.
  intros Hlen. rewrite Argon2_String_defaults.
  unfold NewByEncoded. rewrite Split_rendered_defaults.
  cbn [List.length Nat.eqb encodedSlicesCount negb nth].
  rewrite Sscanf_version_19. cbn [nth].
  change (negb (19 =? argon2_Version)) with false. cbv iota.
  rewrite !DecodeString_EncodeToString.
  rewrite Sscanf_default_options. cbn [nth].
  rewrite Hlen. reflexivity.
Qed.

(** C1.  When [New] succeeds on a plaintext, parsing the rendering of the
    value it returns succeeds and gives that value back, and comparing the
    parsed value against the plaintext returns true. *)
Theorem round_trip (core : kdf) (r : Reader) (plaintext : string)
    (a : Argon2) :
  New core r plaintext = Returned (a, None) ->
  NewByEncoded (Argon2_String a) = (a, None)
  /\ Compare core (fst (NewByEncoded (Argon2_String a))) plaintext
     = Returned true.
Proof.
  rewrite New_cases. destruct (fails r); [discriminate|].
  cbv zeta.
  set (s := map (stream r) (seq 0 16)).
  pose proof (IDKey_defaults core (bytes_of_string plaintext) s) as Hkey.
  set (h := map (core (bytes_of_string plaintext) s 3 65536 2 32) (seq 0 32))
    in *.
  assert (Hlen : List.length h = 32%nat)
    by (unfold h; now rewrite length_map, length_seq).
  clearbody h s. intros H. injection H as <-.
  rewrite (NewByEncoded_rendered_defaults s h Hlen).
  split; [reflexivity|]. cbn [fst].
  rewrite Compare_unfold.
  cbn [salt iterations memory parallelism keyLength hashed elems].
  rewrite Hkey. f_equal.
  now apply ConstantTimeCompare_eq.
Qed.

Lemma round_trip_witness :
  exists a,
    New sample_kdf sample_reader "password" = Returned (a, None)
    /\ NewByEncoded (Argon2_String a) = (a, None)
    /\ Compare sample_kdf (fst (NewByEncoded (Argon2_String a))) "password"
       = Returned true.
Proof.
  eexists. split; [vm_compute; reflexivity|].
  apply (round_trip sample_kdf sample_reader "password").
  vm_compute. reflexivity.
Defined.

(** ** The exits of [NewByEncoded] *)

(** C4.  [NewByEncoded] fails with [ErrInvalidEncodedHash] exactly when
    splitting the input on '$' does not give six parts; the five-field
    string of the specification is rejected with that error. *)
Theorem invalid_format_iff_field_count :
  (forall encoded : string,
     (exists e, snd (NewByEncoded encoded) = Some e
                /\ is_InvalidFormat e = true)
     <-> List.length (Split encoded "$") <> encodedSlicesCount)
  /\ NewByEncoded "$argon2id$v=19$m=65536,t=3,p=2$salt"
     = (zero, Some ErrInvalidEncodedHash).
Proof.
  split; [|vm_compute; reflexivity].
  intros encoded. unfold NewByEncoded. cbv zeta.
  destruct (Nat.eqb_spec (List.length (Split encoded "$")) encodedSlicesCount)
    as [Hlen|Hlen]; cbn [negb].
  - split; [|contradiction].
    intros [e [He Hi]]. exfalso. revert He Hi.
    parse_cases; cbn [snd]; intros He Hi;
      first [discriminate He | injection He as <-; discriminate Hi].
  - split; [intros _; assumption|].
    intros _. exists ErrInvalidEncodedHash. split; reflexivity.
Qed.

(** C5.  On a six-field input whose third field scans as [v=<version>] with
    a version other than 19, [NewByEncoded] fails with
    [ErrIncompatibleVersion], which is not the invalid-format error. *)
Theorem incompatible_version_rejected (encoded : string) (version : Z) :
  List.length (Split encoded "$") = encodedSlicesCount ->
  Sscanf (nth 2 (Split encoded "$") "") "v=%d" [IntPtr] = Ok [version] ->
  version <> argon2_Version ->
  NewByEncoded encoded = (zero, Some ErrIncompatibleVersion)
  /\ is_IncompatibleVersion ErrIncompatibleVersion = true
  /\ is_InvalidFormat ErrIncompatibleVersion = false.
Proof.
  intros Hlen Hscan Hver. split; [|split; reflexivity].
  unfold NewByEncoded. cbv zeta.
  rewrite Hlen, Nat.eqb_refl. cbn [negb].
  rewrite Hscan. cbn [nth].
  apply Z.eqb_neq in Hver. rewrite Hver. reflexivity.
Qed.

Lemma incompatible_version_rejected_witness :
  NewByEncoded "$argon2id$v=1$m=65536,t=3,p=2$c2FsdA$aGFzaA"
  = (zero, Some ErrIncompatibleVersion)
  /\ is_IncompatibleVersion ErrIncompatibleVersion = true
  /\ is_InvalidFormat ErrIncompatibleVersion = false.
Proof.
  apply (incompatible_version_rejected
           "$argon2id$v=1$m=65536,t=3,p=2$c2FsdA$aGFzaA" 1).
  - vm_compute. reflexivity.
  - vm_compute. reflexivity.
  - unfold argon2_Version. lia.
Defined.

(** After the version check the only exits of [NewByEncoded] are its
    three decoding errors and success. *)
Lemma NewByEncoded_after_version_check (encoded : string) :
  List.length (Split encoded "$") = encodedSlicesCount ->
  Sscanf (nth 2 (Split encoded "$") "") "v=%d" [IntPtr]
  = Ok [argon2_Version] ->
  let vals := Split encoded "$" in
  let malformed :=
    (exists e, Sscanf (nth 3 vals "") "m=%d,t=%d,p=%d"
                      [UintPtr 32; UintPtr 32; UintPtr 8] = Err e)
    \/ (exists e, DecodeString (nth 4 vals "") = Err e)
    \/ (exists e, DecodeString (nth 5 vals "") = Err e) in
  ((exists e, snd (NewByEncoded encoded) = Some e
              /\ is_DecodeFailure e = true)
   <-> malformed)
  /\ (snd (NewByEncoded encoded) = None
      /\ isValid (fst (NewByEncoded encoded)) = true
      <-> ~ malformed).
Proof.
  intros Hlen Hver. cbv zeta.
  unfold NewByEncoded. cbv zeta.
  rewrite Hlen, Nat.eqb_refl. cbn [negb].
  rewrite Hver. cbn [nth]. rewrite Z.eqb_refl. cbn [negb].
  destruct (DecodeString (nth 4 (Split encoded "$") "")) as [s|e4].
  2:{ cbn [fst snd]. split; split.
      - intros _. right. left. now exists e4.
      - intros _. eexists. split; reflexivity.
      - intros [H _]. discriminate H.
      - intros H. exfalso. apply H. right. left. now exists e4. }
  destruct (DecodeString (nth 5 (Split encoded "$") "")) as [h|e5].
  2:{ cbn [fst snd]. split; split.
      - intros _. right. right. now exists e5.
      - intros _. eexists. split; reflexivity.
      - intros [H _]. discriminate H.
      - intros H. exfalso. apply H. right. right. now exists e5. }
  destruct (Sscanf (nth 3 (Split encoded "$") "") "m=%d,t=%d,p=%d"
                   [UintPtr 32; UintPtr 32; UintPtr 8]) as [ws|e3].
  2:{ cbn [fst snd]. split; split.
      - intros _. left. now exists e3.
      - intros _. eexists. split; reflexivity.
      - intros [H _]. discriminate H.
      - intros H. exfalso. apply H. left. now exists e3. }
  cbn [fst snd isValid]. split; split.
  - intros [e [H _]]. discriminate H.
  - intros [[e H]|[[e H]|[e H]]]; discriminate H.
  - intros _ [[e H]|[[e H]|[e H]]]; discriminate H.
  - intros _. split; reflexivity.
Qed.

(** ** The zero value and the storage adapter *)

(** C8.  An invalid value, the zero value in particular, renders to the
    empty string and [Value] gives nil without error; [Scan] of nil gives
    an invalid value without error, and on the zero value leaves the zero
    value. *)
Theorem zero_value_behaviour :
  Argon2_String zero = ""
  /\ Value zero = (VNil, None)
  /\ (forall a, Argon2_String (set_isValid a false) = ""
                /\ Value (set_isValid a false) = (VNil, None))
  /\ (forall a, Scan a VNil = (set_isValid a false, None)
                /\ isValid (fst (Scan a VNil)) = false)
  /\ Scan zero VNil = (zero, None).
Proof.
  repeat split.
Qed.

(** C10.  When [Scan] returns an error the source was not nil; if it was
    a string the receiver now holds the zero value, and if it was anything
    else the receiver is unchanged. *)
Theorem Scan_error_post_state (a a' : Argon2) (src : driver_Value)
    (err : error) :
  Scan a src = (a', Some err) ->
  match src with
  | VNil => False
  | VString _ => a' = zero /\ errors_Is err ErrScan = false
  | _ => a' = a /\ errors_Is err ErrScan = true
  end.
Proof.
  destruct src as [|s|b|i|b]; cbn [Scan]; intros H;
    try (injection H as <- <-; split; reflexivity);
    try discriminate H.
  revert H. parse_cases; intros H;
    first [discriminate H | injection H as <- <-; split; reflexivity].
Qed.

Lemma Scan_error_post_state_witness :
  let a := fst (NewByEncoded "$argon2id$v=19$m=65536,t=3,p=2$c2FsdA$aGFzaA") in
  exists a' err,
    isValid a = true
    /\ Scan a (VString "$argon2id$v=19$m=65536") = (a', Some err)
    /\ a' = zero /\ errors_Is err ErrScan = false.
Proof.
  cbv zeta. eexists. eexists.
  split; [vm_compute; reflexivity|].
  split; [vm_compute; reflexivity|].
  apply (Scan_error_post_state
           (fst (NewByEncoded "$argon2id$v=19$m=65536,t=3,p=2$c2FsdA$aGFzaA"))
           _ (VString "$argon2id$v=19$m=65536") _).
  vm_compute. reflexivity.
Defined.

(** ** The invariant *)

Lemma list_ind4 {A : Type} (P : list A -> Prop) :
  P [] -> (forall a, P [a]) -> (forall a b, P [a; b]) ->
  (forall a b c, P [a; b; c]) ->
  (forall a b c d l, P l -> P (a :: b :: c :: d :: l)) ->
  forall l, P l.
Proof.
  intros H0 H1 H2 H3 H4.
  assert (H : forall l, P l /\ (forall a, P (a :: l))
                        /\ (forall a b, P (a :: b :: l))
                        /\ (forall a b c, P (a :: b :: c :: l))).
  { induction l as [|x l [IH0 [IH1 [IH2 IH3]]]]; auto 6. }
  intros l. apply H.
Qed.

Lemma quanta_length (q : list Z) :
  forall bs, quanta q = Some bs -> (List.length bs <= List.length q)%nat.
Proof.
  induction q as [|a|a b|a b c|a b c d q IH] using list_ind4;
    cbn [quanta]; intros bs H; try discriminate H;
    try (injection H as <-; cbn [List.length]; lia).
  destruct (quanta q) as [t|]; [|discriminate H].
  injection H as <-. specialize (IH t eq_refl). cbn [List.length]. lia.
Qed.

Lemma sextets_length (s : string) :
  forall q, sextets s = Some q -> (List.length q <= String.length s)%nat.
Proof.
  induction s as [|c s IH]; cbn [sextets String.length]; intros q H.
  - injection H as <-. cbn. lia.
  - destruct (decode_char c).
    + destruct (sextets s) as [t|]; [|discriminate H].
      injection H as <-. specialize (IH t eq_refl). cbn [List.length]. lia.
    + destruct (is_cr_or_lf c); [|discriminate H].
      specialize (IH q H). lia.
Qed.

Lemma DecodeString_length (s : string) (bs : list byte) :
  DecodeString s = Ok bs -> (List.length bs <= String.length s)%nat.
Proof.
  unfold DecodeString.
  destruct (sextets s) as [q|] eqn:Hs; [|discriminate].
  destruct (quanta q) as [t|] eqn:Hq; [|discriminate].
  intros H. injection H as <-.
  apply sextets_length in Hs. apply quanta_length in Hq. lia.
Qed.

Lemma Split_field_length (sep : ascii) (s : string) :
  forall f, In f (Split s sep) -> (String.length f <= String.length s)%nat.
Proof.
  induction s as [|c s IH]; cbn [Split String.length]; intros f Hin.
  - destruct Hin as [<-|[]]. cbn. lia.
  - destruct (Ascii.eqb c sep).
    + destruct Hin as [<-|Hin]; [cbn; lia|]. specialize (IH f Hin). lia.
    + destruct (Split s sep) as [|h t] eqn:Hsp.
      * destruct Hin as [<-|[]]. cbn. lia.
      * destruct Hin as [<-|Hin].
        -- specialize (IH h (or_introl eq_refl)). cbn [String.length]. lia.
        -- specialize (IH f (or_intror Hin)). lia.
Qed.

Lemma invariant_zero : invariant zero.
Proof. left. split; reflexivity. Qed.

Lemma invariant_New (core : kdf) (r : Reader) (toHash : string)
    (a : Argon2) (err : option error) :
  New core r toHash = Returned (a, err) -> invariant a.
Proof.
  rewrite New_cases. destruct (fails r); cbv zeta; intros H;
    injection H as <- <-.
  - apply invariant_zero.
  - right. eexists. eexists. repeat split.
Qed.

Lemma invariant_NewByEncoded (encoded : string) (a : Argon2)
    (err : option error) :
  fits_uint32 encoded -> NewByEncoded encoded = (a, err) -> invariant a.
Proof.
  unfold fits_uint32. intros Hfit. parse_cases; intros H; injection H as <- <-;
    try apply invariant_zero.
  right. eexists. eexists. repeat split.
  cbn [keyLength]. symmetry. apply Z.mod_small.
  apply DecodeString_length in Hdec0.
  apply Nat.eqb_eq in Hcheck.
  assert (Hin : In (nth 5 (Split encoded "$") "") (Split encoded "$")).
  { apply nth_In. rewrite Hcheck. unfold encodedSlicesCount. lia. }
  apply Split_field_length in Hin. lia.
Qed.

Lemma invariant_set_isValid (a : Argon2) (v : bool) :
  invariant a -> invariant (set_isValid a v).
Proof. intros H. exact H. Qed.

Lemma invariant_Scan (a a' : Argon2) (src : driver_Value)
    (err : option error) :
  invariant a -> src_fits src -> Scan a src = (a', err) -> invariant a'.
Proof.
  intros Ha Hfit. destruct src as [|s|b|i|b]; cbn [Scan]; intros H;
    try (injection H as <- <-; assumption).
  destruct (NewByEncoded s) as [v [e|]] eqn:Hp; injection H as <- <-;
    eapply invariant_NewByEncoded; eassumption.
Qed.

(** C9, as the code has it.  Every value the exported operations produce
    from inputs shorter than 2^32 bytes satisfies the invariant; [Compare],
    [String] and [Value] leave the value they are called on as it was.
    [Scan], which assigns to its receiver, is the one operation that
    changes an existing value, and it keeps the invariant. *)
Theorem reachable_invariant (core : kdf) (a : Argon2) :
  reachable core a ->
  invariant a
  /\ (forall c, snd (call_by_value (fun x => Compare core x c) a) = a)
  /\ snd (call_by_value Argon2_String a) = a
  /\ snd (call_by_value Value a) = a
  /\ (forall src a' err,
        src_fits src -> Scan a src = (a', err) -> invariant a').
Proof.
  intros Hr.
  assert (Hinv : invariant a).
  { induction Hr as [|r p a err H|encoded a err Hfit H|a src a' err Hr IH Hfit H].
    - apply invariant_zero.
    - eapply invariant_New; eassumption.
    - eapply invariant_NewByEncoded; eassumption.
    - eapply invariant_Scan; eassumption. }
  repeat split; try assumption.
  intros src a' err Hfit H. eapply invariant_Scan; eassumption.
Qed.

Lemma reachable_invariant_witness :
  let a := fst (NewByEncoded "$argon2id$v=19$m=65536,t=3,p=2$c2FsdA$aGFzaA") in
  invariant a
  /\ (forall c, snd (call_by_value (fun x => Compare sample_kdf x c) a) = a)
  /\ snd (call_by_value Argon2_String a) = a
  /\ snd (call_by_value Value a) = a
  /\ (forall src a' err,
        src_fits src -> Scan a src = (a', err) -> invariant a').
Proof.
  cbv zeta. apply (reachable_invariant sample_kdf).
  apply (reach_NewByEncoded sample_kdf
           "$argon2id$v=19$m=65536,t=3,p=2$c2FsdA$aGFzaA" _ None).
  - unfold fits_uint32. vm_compute. reflexivity.
  - vm_compute. reflexivity.
Defined.

(** C9, counterexample.  A value parsed from a well-formed encoding is
    changed by a later [Scan]: of nil (the valid flag is cleared), and of a
    malformed string (the value is replaced by the zero value). *)
Lemma Scan_changes_constructed_value :
  let a := fst (NewByEncoded "$argon2id$v=19$m=65536,t=3,p=2$c2FsdA$aGFzaA") in
  snd (NewByEncoded "$argon2id$v=19$m=65536,t=3,p=2$c2FsdA$aGFzaA") = None
  /\ fst (Scan a VNil) <> a
  /\ fst (Scan a (VString "not an encoding")) <> a.
Proof.
  cbv zeta. split; [vm_compute; reflexivity|].
  split; vm_compute; intros H; discriminate H.
Qed.

(** ** Decimal numbers: printing, then scanning *)

Lemma of_uint_acc_value (d : Decimal.uint) :
  forall acc, Zpos (Pos.of_uint_acc d acc) = uint_value (Zpos acc) d.
Proof.
  induction d as [|d IH|d IH|d IH|d IH|d IH|d IH|d IH|d IH|d IH|d IH];
    intros acc; cbn [Pos.of_uint_acc uint_value];
    try reflexivity; rewrite IH; f_equal; lia.
Qed.

Lemma of_uint_value (d : Decimal.uint) :
  Z.of_N (Pos.of_uint d) = uint_value 0 d.
Proof.
  induction d as [|d IH|d IH|d IH|d IH|d IH|d IH|d IH|d IH|d IH|d IH];
    cbn [Pos.of_uint uint_value]; try reflexivity; try exact IH;
    cbn [Z.of_N]; apply of_uint_acc_value.
Qed.

Lemma to_uint_value (p : positive) : uint_value 0 (Pos.to_uint p) = Zpos p.
Proof.
  rewrite <- of_uint_value, DecimalPos.Unsigned.of_to. reflexivity.
Qed.

Lemma uint_value_mono (d : Decimal.uint) :
  forall acc, 0 <= acc -> acc <= uint_value acc d.
Proof.
  induction d as [|d IH|d IH|d IH|d IH|d IH|d IH|d IH|d IH|d IH|d IH];
    intros acc Hacc; cbn [uint_value]; try lia;
    match goal with
    | |- _ <= uint_value ?x d => specialize (IH x ltac:(lia)); lia
    end.
Qed.

(** The digit loop of [ParseUint] on printed digits: no check fails as long
    as the number fits 64 bits. *)
Lemma parse_digits_printed (d : Decimal.uint) :
  forall acc,
    0 <= acc -> uint_value acc d <= maxUint64 ->
    parse_digits (maxUint64 / 10 + 1) maxUint64 acc
                 (NilEmpty.string_of_uint d)
    = Ok (uint_value acc d).
Proof.
  assert (Hcut : maxUint64 / 10 + 1 = 1844674407370955162) by reflexivity.
  assert (Hmax : maxUint64 = 18446744073709551615) by reflexivity.
  rewrite Hcut.
  induction d as [|d IH|d IH|d IH|d IH|d IH|d IH|d IH|d IH|d IH|d IH];
    intros acc Hacc Hfit;
    cbn [NilEmpty.string_of_uint parse_digits uint_value] in *;
    try reflexivity;
    match goal with
    | |- context [digit_value ?c] =>
        change (digit_value c) with (Some (Z.of_N (N_of_ascii c) - 48));
        cbv beta iota
    end;
    match type of Hfit with
    | uint_value ?x d <= _ =>
        pose proof (uint_value_mono d x ltac:(lia)) as Hm;
        destruct (Z.geb_spec acc 1844674407370955162) as [Hge|Hlt];
        [ exfalso; cbn in Hm; lia |];
        match goal with
        | |- context [?n1 >? maxUint64] =>
            destruct (Z.gtb_spec n1 maxUint64) as [Hgt|Hle];
            [ exfalso; cbn in Hgt, Hm; lia |]
        end;
        apply IH; [cbn; lia | exact Hfit]
    end.
Qed.

Lemma accept_run_stop (rest : string) :
  starts_with_digit rest = false -> accept_run rest = (EmptyString, rest).
Proof.
  destruct rest as [|c r]; cbn [starts_with_digit accept_run]; [reflexivity|].
  now intros ->.
Qed.

Lemma accept_run_printed (d : Decimal.uint) (rest : string) :
  starts_with_digit rest = false ->
  accept_run (NilEmpty.string_of_uint d ++ rest)
  = (NilEmpty.string_of_uint d, rest).
Proof.
  intros Hrest.
  induction d as [|d IH|d IH|d IH|d IH|d IH|d IH|d IH|d IH|d IH|d IH];
    cbn [NilEmpty.string_of_uint append];
    [ now apply accept_run_stop | .. ];
    cbn [accept_run];
    match goal with
    | |- context [is_decimal_digit ?c] =>
        change (is_decimal_digit c) with true; cbv iota
    end;
    rewrite IH; reflexivity.
Qed.

(** A non-negative integer prints as the digits of a non-empty decimal
    numeral whose value it is. *)
Lemma format_d_printed (z : Z) :
  0 <= z ->
  exists d, d <> Decimal.Nil
            /\ format_d z = NilEmpty.string_of_uint d
            /\ uint_value 0 d = z.
Proof.
  intros Hz. destruct z as [|p|p]; [| |lia].
  - exists (Decimal.D0 Decimal.Nil). repeat split. discriminate.
  - exists (Pos.to_uint p).
    pose proof (DecimalPos.Unsigned.to_uint_nonnil p) as Hnn.
    split; [assumption|]. split; [|apply to_uint_value].
    unfold format_d. cbn [Z.to_int NilZero.string_of_int].
    unfold NilZero.string_of_uint.
    destruct (Pos.to_uint p); [contradiction|reflexivity..].
Qed.

Lemma printed_head (d : Decimal.uint) :
  d <> Decimal.Nil ->
  exists c r, NilEmpty.string_of_uint d = String c r
              /\ is_decimal_digit c = true
              /\ (48 <= N_of_ascii c <= 57)%N.
Proof.
  intros Hnn. destruct d; [contradiction|..];
    cbn [NilEmpty.string_of_uint]; eexists; eexists;
    (split; [reflexivity|]); split; try reflexivity; cbn; lia.
Qed.

(** [SkipSpace] stops at once on an ASCII character that is not a space. *)
Lemma SkipSpace_stop (c : ascii) (r : string) :
  (33 <= N_of_ascii c <= 127)%N ->
  SkipSpace (String c r) = Ok (String c r).
Proof.
  intros Hc. cbn [SkipSpace]. cbv zeta.
  remember (N_of_ascii c) as n eqn:Hn. clear Hn.
  replace (n =? 10)%N with false by (symmetry; apply N.eqb_neq; lia).
  replace (n =? 32)%N with false by (symmetry; apply N.eqb_neq; lia).
  replace (n <=? 13)%N with false by (symmetry; apply N.leb_gt; lia).
  replace (n =? 194)%N with false by (symmetry; apply N.eqb_neq; lia).
  replace (n =? 225)%N with false by (symmetry; apply N.eqb_neq; lia).
  replace (n =? 226)%N with false by (symmetry; apply N.eqb_neq; lia).
  replace (n =? 227)%N with false by (symmetry; apply N.eqb_neq; lia).
  rewrite andb_false_r. cbn [orb andb].
  destruct r as [|d [|e r]]; reflexivity.
Qed.

(** Scanning a printed number back: the digits are consumed up to the first
    character that cannot continue them, and give the number. *)
Lemma scanUint_printed (bitSize z : Z) (rest : string) :
  0 <= bitSize <= 64 -> 0 <= z < 2 ^ bitSize ->
  starts_with_digit rest = false ->
  scanUint bitSize (format_d z ++ rest) = Ok (z, rest)
  /\ SkipSpace (format_d z ++ rest) = Ok (format_d z ++ rest)%string.
Proof.
  intros Hbits Hz Hrest.
  destruct (format_d_printed z ltac:(lia)) as [d [Hnn [Hfmt Hval]]].
  destruct (printed_head d Hnn) as [c [r [Hhead [Hdig Hrange]]]].
  assert (Hskip : SkipSpace (format_d z ++ rest) = Ok (format_d z ++ rest)%string).
  { rewrite Hfmt, Hhead. cbn [append]. apply SkipSpace_stop. lia. }
  split; [|exact Hskip].
  unfold scanUint. rewrite Hskip.
  assert (Hsn : scanNumber (format_d z ++ rest) = Ok (format_d z, rest)).
  { rewrite Hfmt. unfold scanNumber.
    rewrite <- (accept_run_printed d rest Hrest).
    rewrite Hhead. cbn [append]. now rewrite Hdig. }
  assert (Hpu : ParseUint (format_d z) = Ok z).
  { rewrite Hfmt. unfold ParseUint.
    rewrite parse_digits_printed; [rewrite Hval| lia |].
    - rewrite Hhead. reflexivity.
    - rewrite Hval. unfold maxUint64.
      assert (2 ^ bitSize <= 2 ^ 64) by (apply Z.pow_le_mono_r; lia). lia. }
  replace (format_d z ++ rest)%string
    with (String c (r ++ rest)) at 1 by (now rewrite Hfmt, Hhead).
  replace (String c (r ++ rest)) with (format_d z ++ rest)%string
    by (now rewrite Hfmt, Hhead).
  rewrite Hsn, Hpu.
  rewrite Z.mod_small by lia. now rewrite Z.eqb_refl.
Qed.

(** ** Strings *)

Lemma append_assoc (s t u : string) : ((s ++ t) ++ u = s ++ t ++ u)%string.
Proof.
  induction s as [|c s IH]; cbn [append]; [reflexivity|]. now rewrite IH.
Qed.

Lemma append_empty_r (s : string) : (s ++ "")%string = s.
Proof.
  induction s as [|c s IH]; cbn [append]; [reflexivity|]. now rewrite IH.
Qed.

Lemma contains_app (c : ascii) (s t : string) :
  contains c (s ++ t) = contains c s || contains c t.
Proof.
  induction s as [|d s IH]; cbn [append contains]; [reflexivity|].
  rewrite IH. apply orb_assoc.
Qed.

Lemma contains_dollar_printed (d : Decimal.uint) :
  contains "$" (NilEmpty.string_of_uint d) = false.
Proof.
  induction d as [|d IH|d IH|d IH|d IH|d IH|d IH|d IH|d IH|d IH|d IH];
    cbn [NilEmpty.string_of_uint contains]; [reflexivity|..];
    rewrite IH; reflexivity.
Qed.

Lemma contains_dollar_format_d (z : Z) :
  0 <= z -> contains "$" (format_d z) = false.
Proof.
  intros Hz. destruct (format_d_printed z Hz) as [d [_ [-> _]]].
  apply contains_dollar_printed.
Qed.

(** ** Scanning a rendered options field *)

Lemma doScanf_Lit (c : ascii) (fmt : list directive) (ops : list operand)
    (r : string) :
  doScanf (Lit c :: fmt) ops (String c r) = doScanf fmt ops r.
Proof. cbn [doScanf]. now rewrite Ascii.eqb_refl. Qed.

Lemma doScanf_VerbD_printed (bitSize z : Z) (fmt : list directive)
    (ops : list operand) (rest : string) :
  0 <= bitSize <= 64 -> 0 <= z < 2 ^ bitSize ->
  starts_with_digit rest = false ->
  doScanf (VerbD :: fmt) (UintPtr bitSize :: ops) (format_d z ++ rest)
  = match doScanf fmt ops rest with
    | Err e => Err e
    | Ok vs => Ok (z :: vs)
    end.
Proof.
  intros Hbits Hz Hrest.
  destruct (scanUint_printed bitSize z rest Hbits Hz Hrest) as [Hscan Hskip].
  cbn [doScanf]. rewrite Hskip. cbn [scanOne]. rewrite Hscan. reflexivity.
Qed.

(** The options field as [String] writes it. *)
Lemma Sscanf_options_printed (m t p : Z) :
  0 <= m < 2 ^ 32 -> 0 <= t < 2 ^ 32 -> 0 <= p < 2 ^ 8 ->
  Sscanf ("m=" ++ format_d m ++ ",t=" ++ format_d t ++ ",p=" ++ format_d p)
         "m=%d,t=%d,p=%d" [UintPtr 32; UintPtr 32; UintPtr 8]
  = Ok [m; t; p].
Proof.
  intros Hm Ht Hp. unfold Sscanf.
  change (parse_format "m=%d,t=%d,p=%d")
    with [Lit "m"; Lit "="; VerbD; Lit ","; Lit "t"; Lit "="; VerbD;
          Lit ","; Lit "p"; Lit "="; VerbD].
  cbn [append]. rewrite !doScanf_Lit.
  rewrite doScanf_VerbD_printed by (lia || reflexivity).
  rewrite !doScanf_Lit.
  rewrite doScanf_VerbD_printed by (lia || reflexivity).
  rewrite !doScanf_Lit.
  rewrite <- (append_empty_r (format_d p)).
  rewrite doScanf_VerbD_printed by (lia || reflexivity).
  reflexivity.
Qed.

(** ** Rendering, then parsing *)

(** The six fields of the rendering of a valid value. *)
Lemma Argon2_String_fields (a : Argon2) :
  isValid a = true ->
  Argon2_String a
  = (""
     ++ String "$"
          ("argon2id"
           ++ String "$"
                ("v=19"
                 ++ String "$"
                      (("m=" ++ format_d (memory a)
                        ++ ",t=" ++ format_d (iterations a)
                        ++ ",p=" ++ format_d (parallelism a))
                       ++ String "$"
                            (EncodeToString (elems (salt a))
                             ++ String "$"
                                  (EncodeToString (elems (hashed a))))))))%string.
Proof.
  intros Hv. unfold Argon2_String. rewrite Hv. cbn [negb].
  change (format_d argon2_Version) with "19".
  cbn [append]. do 17 f_equal.
  rewrite append_assoc. cbn [append]. do 4 f_equal.
  rewrite append_assoc. cbn [append]. reflexivity.
Qed.

Lemma Split_rendered (a : Argon2) :
  isValid a = true ->
  0 <= memory a -> 0 <= iterations a -> 0 <= parallelism a ->
  Split (Argon2_String a) "$"
  = [""; "argon2id"; "v=19";
     ("m=" ++ format_d (memory a) ++ ",t=" ++ format_d (iterations a)
      ++ ",p=" ++ format_d (parallelism a))%string;
     EncodeToString (elems (salt a)); EncodeToString (elems (hashed a))].
Proof.
  intros Hv Hm Ht Hp. rewrite Argon2_String_fields by assumption.
  rewrite !Split_app.
  - rewrite Split_no_sep by apply contains_EncodeToString. reflexivity.
  - apply contains_EncodeToString.
  - rewrite !contains_app, !contains_dollar_format_d by assumption.
    reflexivity.
  - reflexivity.
  - reflexivity.
  - reflexivity.
Qed.

(** Parsing the rendering of a well-formed value gives the value back. *)
Lemma NewByEncoded_rendered (a : Argon2) :
  well_formed a -> NewByEncoded (Argon2_String a) = (a, None).
Proof.
  intros [Hv [[s [h [Hs [Hh Hk]]]] [Ht [Hm [Hp Hkl]]]]].
  unfold NewByEncoded. rewrite Split_rendered by (assumption || lia).
  cbn [List.length Nat.eqb encodedSlicesCount negb nth].
  rewrite Sscanf_version_19. cbn [nth].
  change (negb (19 =? argon2_Version)) with false. cbv iota.
  rewrite !DecodeString_EncodeToString.
  rewrite Sscanf_options_printed by assumption. cbn [nth].
  rewrite Hs, Hh. cbn [elems]. rewrite Z.mod_small by lia.
  destruct a as [sa ia ma pa ka ha va]. cbn in *. subst. reflexivity.
Qed.

(** ** What a successful parse yields *)

Lemma parse_digits_nonneg (cutoff maxVal : Z) (s : string) :
  forall n v, 0 <= n -> parse_digits cutoff maxVal n s = Ok v -> 0 <= v.
Proof.
  induction s as [|c s IH]; cbn [parse_digits]; intros n v Hn H.
  - injection H as <-. assumption.
  - unfold digit_value in H.
    destruct ((48 <=? Z.of_N (N_of_ascii c))
              && (Z.of_N (N_of_ascii c) <=? 57)) eqn:Hd; [|discriminate H].
    apply andb_true_iff in Hd as [Hlo Hhi].
    apply Z.leb_le in Hlo. apply Z.leb_le in Hhi.
    destruct (n >=? cutoff); [discriminate H|].
    destruct (n * 10 + (Z.of_N (N_of_ascii c) - 48) >? maxVal);
      [discriminate H|].
    eapply IH; [|exact H]. lia.
Qed.

Lemma ParseUint_nonneg (s : string) (v : Z) : ParseUint s = Ok v -> 0 <= v.
Proof.
  unfold ParseUint. destruct s; [discriminate|].
  apply parse_digits_nonneg. lia.
Qed.

(** A scanned unsigned number fits the width it was scanned for. *)
Lemma scanUint_range (bitSize : Z) (s r : string) (i : Z) :
  0 < bitSize -> scanUint bitSize s = Ok (i, r) -> 0 <= i < 2 ^ bitSize.
Proof.
  intros Hb. unfold scanUint.
  destruct (SkipSpace s) as [[|c s1]|]; try discriminate.
  destruct (scanNumber (String c s1)) as [[tok rest]|]; try discriminate.
  destruct (ParseUint tok) as [v|] eqn:Hv; try discriminate.
  destruct (Z.eqb_spec (v mod 2 ^ bitSize) v) as [Heq|]; try discriminate.
  intros H. injection H as <- <-.
  rewrite <- Heq. apply Z.mod_pos_bound. apply Z.pow_pos_nonneg; lia.
Qed.

Lemma doScanf_Lit_inv (c : ascii) (fmt : list directive)
    (ops : list operand) (s : string) (vs : list Z) :
  doScanf (Lit c :: fmt) ops s = Ok vs ->
  exists r, s = String c r /\ doScanf fmt ops r = Ok vs.
Proof.
  cbn [doScanf]. destruct s as [|d r]; [discriminate|].
  destruct (Ascii.eqb_spec c d) as [->|]; [|discriminate].
  intros H. now exists r.
Qed.

Lemma doScanf_VerbD_inv (fmt : list directive) (op : operand)
    (ops : list operand) (s : string) (vs : list Z) :
  doScanf (VerbD :: fmt) (op :: ops) s = Ok vs ->
  exists s1 v r ws,
    SkipSpace s = Ok s1 /\ scanOne op s1 = Ok (v, r)
    /\ doScanf fmt ops r = Ok ws /\ vs = v :: ws.
Proof.
  cbn [doScanf]. destruct (SkipSpace s) as [s1|]; [|discriminate].
  destruct (scanOne op s1) as [[v r]|] eqn:Hone; [|discriminate].
  destruct (doScanf fmt ops r) as [ws|] eqn:Hrest; [|discriminate].
  intros H. injection H as H. exists s1, v, r, ws.
  repeat split; auto.
Qed.

(** A successful scan of the options field stores three numbers, each
    within the width of its variable. *)
Lemma Sscanf_options_range (s : string) (ws : list Z) :
  Sscanf s "m=%d,t=%d,p=%d" [UintPtr 32; UintPtr 32; UintPtr 8] = Ok ws ->
  exists m t p,
    ws = [m; t; p]
    /\ 0 <= m < 2 ^ 32 /\ 0 <= t < 2 ^ 32 /\ 0 <= p < 2 ^ 8.
Proof.
  unfold Sscanf.
  change (parse_format "m=%d,t=%d,p=%d")
    with [Lit "m"; Lit "="; VerbD; Lit ","; Lit "t"; Lit "="; VerbD;
          Lit ","; Lit "p"; Lit "="; VerbD].
  intros H.
  apply doScanf_Lit_inv in H as [r1 [_ H]].
  apply doScanf_Lit_inv in H as [r2 [_ H]].
  apply doScanf_VerbD_inv in H as [s1 [m [r3 [w1 [_ [Hm [H ->]]]]]]].
  apply doScanf_Lit_inv in H as [r4 [_ H]].
  apply doScanf_Lit_inv in H as [r5 [_ H]].
  apply doScanf_Lit_inv in H as [r6 [_ H]].
  apply doScanf_VerbD_inv in H as [s2 [t [r7 [w2 [_ [Ht [H ->]]]]]]].
  apply doScanf_Lit_inv in H as [r8 [_ H]].
  apply doScanf_Lit_inv in H as [r9 [_ H]].
  apply doScanf_Lit_inv in H as [r10 [_ H]].
  apply doScanf_VerbD_inv in H as [s3 [p [r11 [w3 [_ [Hp [H ->]]]]]]].
  cbn [doScanf] in H. injection H as <-.
  cbn [scanOne] in Hm, Ht, Hp.
  apply scanUint_range in Hm; [|lia].
  apply scanUint_range in Ht; [|lia].
  apply scanUint_range in Hp; [|lia].
  now exists m, t, p.
Qed.

(** Every value [NewByEncoded] returns without error, from an input
    shorter than 2^32 bytes, is well formed. *)
Lemma NewByEncoded_well_formed (encoded : string) (a : Argon2) :
  fits_uint32 encoded -> NewByEncoded encoded = (a, None) -> well_formed a.
Proof.
  unfold fits_uint32. intros Hfit.
  parse_cases; intros H; try discriminate H. injection H as <-.
  apply Sscanf_options_range in Hscan0
    as [m [t [p [-> [Hm [Ht Hp]]]]]].
  cbn [nth].
  assert (Hlen : Z.of_nat (List.length x2) < 2 ^ 32).
  { apply DecodeString_length in Hdec0.
    apply Nat.eqb_eq in Hcheck.
    assert (Hin : In (nth 5 (Split encoded "$") "") (Split encoded "$")).
    { apply nth_In. rewrite Hcheck. unfold encodedSlicesCount. lia. }
    apply Split_field_length in Hin. lia. }
  unfold well_formed.
  cbn [isValid salt hashed keyLength iterations memory parallelism].
  rewrite Z.mod_small by lia.
  split; [reflexivity|].
  split; [|repeat split; lia].
  eexists. eexists. repeat split.
Qed.

(** Every value [New] returns without error is well formed. *)
Lemma New_well_formed (core : kdf) (r : Reader) (toHash : string)
    (a : Argon2) :
  New core r toHash = Returned (a, None) -> well_formed a.
Proof.
  rewrite New_cases. destruct (fails r); [discriminate|].
  cbv zeta. intros H. injection H as <-.
  unfold well_formed.
  cbn [isValid salt hashed keyLength iterations memory parallelism].
  split; [reflexivity|].
  split; [|repeat split; lia].
  eexists. eexists. split; [reflexivity|]. split; [reflexivity|].
  rewrite ?length_map, ?length_seq. reflexivity.
Qed.

(** * Further properties of the package *)

(** X1.  Parsing the rendering of a well-formed value, whatever its
    parameters, succeeds and gives that value back. *)
Theorem render_then_parse (a : Argon2) :
  well_formed a -> NewByEncoded (Argon2_String a) = (a, None).
Proof. apply NewByEncoded_rendered. Qed.

Lemma render_then_parse_witness :
  let a := mkArgon2 (Some (bytes_of_string "salt")) 1 1024 4 4
                    (Some (bytes_of_string "hash")) true in
  well_formed a /\ NewByEncoded (Argon2_String a) = (a, None).
Proof.
  cbv zeta.
  assert (Hwf : well_formed
                  (mkArgon2 (Some (bytes_of_string "salt")) 1 1024 4 4
                            (Some (bytes_of_string "hash")) true)).
  { unfold well_formed. cbn. repeat split; try lia.
    eexists. eexists. repeat split. }
  split; [exact Hwf|]. apply (render_then_parse _ Hwf).
Defined.

(** X2.  A value parsed from an input shorter than 2^32 bytes is well
    formed (salt and key present, key of [keyLength] bytes, parameters
    within their widths), and its rendering parses back to it: rendering
    a parsed value gives an encoding of the same value, however the input
    was written. *)
Theorem parse_then_render (encoded : string) (a : Argon2) :
  fits_uint32 encoded ->
  NewByEncoded encoded = (a, None) ->
  well_formed a /\ NewByEncoded (Argon2_String a) = (a, None).
Proof.
  intros Hfit Hparse.
  pose proof (NewByEncoded_well_formed encoded a Hfit Hparse) as Hwf.
  split; [exact Hwf|]. now apply NewByEncoded_rendered.
Qed.

Lemma parse_then_render_witness :
  let encoded := "x$argon2i$v= +19 $m=0065536,t=3,p=2 and more$c2FsdA$aGFzaA" in
  exists a,
    NewByEncoded encoded = (a, None)
    /\ Argon2_String a = "$argon2id$v=19$m=65536,t=3,p=2$c2FsdA$aGFzaA"
    /\ well_formed a
    /\ NewByEncoded (Argon2_String a) = (a, None).
Proof.
  cbv zeta. eexists.
  split; [vm_compute; reflexivity|].
  split; [vm_compute; reflexivity|].
  apply (parse_then_render
           "x$argon2i$v= +19 $m=0065536,t=3,p=2 and more$c2FsdA$aGFzaA").
  - unfold fits_uint32. vm_compute. reflexivity.
  - vm_compute. reflexivity.
Defined.

(** X3.  Storage round trip.  For a value that is invalid or well formed,
    scanning what [Value] returns, into any receiver, reports no error and
    leaves a receiver with the same rendering; for a well-formed value the
    receiver is that value. *)
Theorem storage_round_trip (x a : Argon2) :
  isValid a = false \/ well_formed a ->
  snd (Value a) = None
  /\ snd (Scan x (fst (Value a))) = None
  /\ Argon2_String (fst (Scan x (fst (Value a)))) = Argon2_String a
  /\ (well_formed a -> fst (Scan x (fst (Value a))) = a).
Proof.
  intros [Hinv|Hwf].
  - unfold Value. rewrite Hinv. cbn [negb fst snd Scan].
    repeat split.
    + unfold Argon2_String. now rewrite Hinv.
    + intros [Hv _]. congruence.
  - assert (Hv : isValid a = true) by apply Hwf.
    unfold Value. rewrite Hv. cbn [negb fst snd Scan].
    rewrite (NewByEncoded_rendered a Hwf). cbn [fst snd].
    repeat split.
Qed.

Lemma storage_round_trip_witness :
  let a := mkArgon2 (Some (bytes_of_string "salt")) 1 1024 4 4
                    (Some (bytes_of_string "hash")) true in
  fst (Value a) = VString "$argon2id$v=19$m=1024,t=1,p=4$c2FsdA$aGFzaA"
  /\ snd (Value a) = None
  /\ snd (Scan zero (fst (Value a))) = None
  /\ Argon2_String (fst (Scan zero (fst (Value a)))) = Argon2_String a
  /\ (well_formed a -> fst (Scan zero (fst (Value a))) = a).
Proof.
  cbv zeta. split; [vm_compute; reflexivity|].
  apply (storage_round_trip zero).
  right. unfold well_formed. cbn. repeat split; try lia.
  eexists. eexists. repeat split.
Defined.

(** X4.  [MustNew] panics exactly when the entropy source fails;
    otherwise it returns the value [New] returns, with no error lost. *)
Theorem MustNew_panics_iff_source_fails (core : kdf) (r : Reader)
    (toHash : string) :
  match MustNew core r toHash with
  | Panicked _ =>
      fails r = true
      /\ exists err, New core r toHash = Returned (zero, Some err)
  | Returned a =>
      fails r = false /\ New core r toHash = Returned (a, None)
  end.
Proof.
  unfold MustNew. rewrite New_cases.
  destruct (fails r); cbv zeta.
  - split; [reflexivity|]. eexists. reflexivity.
  - split; reflexivity.
Qed.

(** X5.  [Bytes] returns either [n] bytes and no error, or no bytes and an
    error that wraps the failure of the entropy source; never both, never
    neither. *)
Theorem Bytes_all_or_error (r : Reader) (n : Z) :
  match Bytes r n with
  | (Some b, None) => fails r = false /\ List.length b = Z.to_nat n
  | (None, Some err) =>
      fails r = true /\ errors_Is err (LibError RandFailure) = true
  | _ => False
  end.
Proof.
  unfold Bytes, rand_Read. destruct (fails r).
  - split; reflexivity.
  - split; [reflexivity|]. now rewrite length_map, length_seq.
Qed.

(** X6.  [makeSalt] never replaces a salt that is already set, and then
    neither reads the entropy source nor fails; on a value without salt it
    either stores sixteen fresh bytes, leaving every other field as it
    was, or returns the source's error with the receiver unchanged. *)
Theorem makeSalt_sets_missing_salt_only (r : Reader) (a : Argon2) :
  match salt a with
  | Some _ => makeSalt r a = (a, None)
  | None =>
      match makeSalt r a with
      | (a', None) =>
          fails r = false
          /\ exists s, List.length s = 16%nat /\ a' = set_salt a (Some s)
      | (a', Some err) =>
          fails r = true /\ a' = a
          /\ errors_Is err (LibError RandFailure) = true
      end
  end.
Proof.
  unfold makeSalt. destruct (salt a) as [s|]; [reflexivity|].
  unfold Bytes, rand_Read. destruct (fails r).
  - repeat split.
  - split; [reflexivity|]. eexists. split; [|reflexivity].
    now rewrite length_map, length_seq.
Qed.

(** X7.  [Scan] of a string leaves in the receiver exactly what
    [NewByEncoded] returns for that string, whatever the receiver held;
    it fails exactly when the parse fails, and its error still matches
    ([errors.Is]) everything the parse error matches. *)
Theorem Scan_string_delegates (x : Argon2) (s : string) :
  fst (Scan x (VString s)) = fst (NewByEncoded s)
  /\ match snd (NewByEncoded s), snd (Scan x (VString s)) with
     | None, None => True
     | Some e, Some e' =>
         forall target, errors_Is e target = true ->
                        errors_Is e' target = true
     | _, _ => False
     end.
Proof.
  cbn [Scan]. destruct (NewByEncoded s) as [a [e|]]; cbn [fst snd].
  - split; [reflexivity|]. intros target H.
    cbn [errors_Is]. rewrite H. apply orb_true_r.
  - split; [reflexivity|exact I].
Qed.

(** X8.  [NewByEncoded] never looks at the first two fields: two six-field
    inputs that agree on the last four fields parse alike, so neither the
    text before the first '$' nor the algorithm name is checked. *)
Theorem NewByEncoded_ignores_first_two_fields
    (e1 e2 a0 a1 b0 b1 f2 f3 f4 f5 : string) :
  Split e1 "$" = [a0; a1; f2; f3; f4; f5] ->
  Split e2 "$" = [b0; b1; f2; f3; f4; f5] ->
  NewByEncoded e1 = NewByEncoded e2.
Proof.
  intros H1 H2. unfold NewByEncoded. rewrite H1, H2. reflexivity.
Qed.

Lemma NewByEncoded_ignores_first_two_fields_witness :
  NewByEncoded "$argon2id$v=19$m=65536,t=3,p=2$c2FsdA$aGFzaA"
  = NewByEncoded "prefix$scrypt$v=19$m=65536,t=3,p=2$c2FsdA$aGFzaA"
  /\ snd (NewByEncoded "prefix$scrypt$v=19$m=65536,t=3,p=2$c2FsdA$aGFzaA")
     = None.
Proof.
  split; [|vm_compute; reflexivity].
  apply (NewByEncoded_ignores_first_two_fields
           "$argon2id$v=19$m=65536,t=3,p=2$c2FsdA$aGFzaA"
           "prefix$scrypt$v=19$m=65536,t=3,p=2$c2FsdA$aGFzaA"
           "" "argon2id" "prefix" "scrypt"
           "v=19" "m=65536,t=3,p=2" "c2FsdA" "aGFzaA");
    vm_compute; reflexivity.
Defined.

(** X9.  [NewByEncoded] returns all or nothing: with an error the value is
    the zero value; without one the value is valid and has both a salt and
    a key, the key of [keyLength] bytes modulo 2^32. *)
Theorem NewByEncoded_all_or_nothing (encoded : string) :
  match NewByEncoded encoded with
  | (a, Some _) => a = zero
  | (a, None) =>
      isValid a = true
      /\ exists s h,
           salt a = Some s /\ hashed a = Some h
           /\ keyLength a = Z.of_nat (List.length h) mod 2 ^ 32
  end.
Proof.
  parse_cases; try reflexivity.
  split; [reflexivity|]. eexists. eexists. repeat split.
Qed.

(** X10.  [Compare] does not look at the valid flag: a value whose flag
    was cleared, by [Scan] of nil in particular, renders as the empty
    string but still compares exactly as before. *)
Theorem Compare_ignores_valid_flag (core : kdf) (a : Argon2) (v : bool)
    (candidate : string) :
  Compare core (set_isValid a v) candidate = Compare core a candidate
  /\ Compare core (fst (Scan a VNil)) candidate = Compare core a candidate
  /\ Argon2_String (fst (Scan a VNil)) = "".
Proof.
  repeat split.
Qed.

(** X11.  A value hashed by [makeHash] matches the string it was hashed
    from: whenever [makeHash] returns, [Compare] on the result with the
    same string returns true. *)
Theorem makeHash_then_Compare (core : kdf) (a a' : Argon2)
    (toHash : string) :
  makeHash core a toHash = Returned a' ->
  Compare core a' toHash = Returned true.
Proof.
  unfold makeHash. rewrite Compare_unfold.
  destruct (IDKey core (bytes_of_string toHash) (elems (salt a))
                  (iterations a) (memory a) (parallelism a) (keyLength a))
    as [key|msg] eqn:Hkey; [|discriminate].
  intros H. injection H as <-.
  cbn [set_hashed salt iterations memory parallelism keyLength hashed elems].
  rewrite Hkey. f_equal. now apply ConstantTimeCompare_eq.
Qed.

Lemma makeHash_then_Compare_witness :
  let a := mkArgon2 (Some (bytes_of_string "salt")) 1 8 1 20 None true in
  exists a',
    makeHash sample_kdf a "secret" = Returned a'
    /\ Compare sample_kdf a' "secret" = Returned true.
Proof.
  cbv zeta. eexists. split; [vm_compute; reflexivity|].
  apply (makeHash_then_Compare sample_kdf
           (mkArgon2 (Some (bytes_of_string "salt")) 1 8 1 20 None true)).
  vm_compute. reflexivity.
Defined.

(** X12.  The rendering is empty exactly for invalid values, and [Value]
    gives nil exactly for them: a valid value never renders as the empty
    string and is never stored as nil. *)
Theorem empty_rendering_iff_invalid (a : Argon2) :
  (Argon2_String a = "" <-> isValid a = false)
  /\ (fst (Value a) = VNil <-> isValid a = false)
  /\ snd (Value a) = None.
Proof.
  unfold Value, Argon2_String.
  destruct (isValid a); cbn [negb fst snd append];
    repeat split; try discriminate; reflexivity.
Qed.

(** X13.  Create, store, load, verify: the value [New] returns is stored
    by [Value] as a non-empty string; [Scan] of that string, into any
    receiver, gives the value back without error, and [Compare] on the
    loaded value with the original plaintext returns true. *)
Theorem create_store_load_verify (core : kdf) (r : Reader)
    (plaintext : string) (a x : Argon2) :
  New core r plaintext = Returned (a, None) ->
  exists s,
    Value a = (VString s, None) /\ s <> ""
    /\ Scan x (VString s) = (a, None)
    /\ Compare core (fst (Scan x (VString s))) plaintext = Returned true.
Proof.
  intros Hnew. pose proof (New_well_formed core r plaintext a Hnew) as Hwf.
  assert (Hv : isValid a = true) by apply Hwf.
  exists (Argon2_String a).
  assert (Hscan : Scan x (VString (Argon2_String a)) = (a, None)).
  { cbn [Scan]. now rewrite (NewByEncoded_rendered a Hwf). }
  split; [unfold Value; now rewrite Hv|].
  split; [rewrite Argon2_String_fields by assumption; discriminate|].
  split; [exact Hscan|]. rewrite Hscan. cbn [fst].
  revert Hnew. rewrite New_cases. destruct (fails r); [discriminate|].
  cbv zeta.
  set (s := map (stream r) (seq 0 16)).
  pose proof (IDKey_defaults core (bytes_of_string plaintext) s) as Hkey.
  set (h := map (core (bytes_of_string plaintext) s 3 65536 2 32) (seq 0 32))
    in *.
  clearbody h s. intros H. injection H as <-.
  rewrite Compare_unfold.
  cbn [salt iterations memory parallelism keyLength hashed elems].
  rewrite Hkey. f_equal. now apply ConstantTimeCompare_eq.
Qed.

Lemma create_store_load_verify_witness :
  exists a s,
    New sample_kdf sample_reader "password" = Returned (a, None)
    /\ Value a = (VString s, None) /\ s <> ""
    /\ Scan zero (VString s) = (a, None)
    /\ Compare sample_kdf (fst (Scan zero (VString s))) "password"
       = Returned true.
Proof.
  set (a := match New sample_kdf sample_reader "password" with
            | Returned (v, _) => v
            | Panicked _ => zero
            end).
  assert (Hnew : New sample_kdf sample_reader "password" = Returned (a, None))
    by (vm_compute; reflexivity).
  destruct (create_store_load_verify sample_kdf sample_reader "password"
              a zero Hnew) as [s H].
  exists a, s. split; [exact Hnew|exact H].
Defined.

(** ** Scanning ignores what follows the last number *)

(** Case analysis and induction along the recursion of [SkipSpace]. *)
Lemma SkipSpace_ind (P : string -> Prop) :
  P EmptyString ->
  (forall c r,
     (forall t, SkipSpace (String c t) = Err UnexpectedNewline) ->
     P (String c r)) ->
  (forall c r,
     (forall t, SkipSpace (String c t) = SkipSpace t) ->
     P r -> P (String c r)) ->
  (forall c d r,
     (forall t, SkipSpace (String c (String d t)) = SkipSpace t) ->
     P r -> P (String c (String d r))) ->
  (forall c d e r,
     (forall t, SkipSpace (String c (String d (String e t))) = SkipSpace t) ->
     P r -> P (String c (String d (String e r)))) ->
  (forall c r, SkipSpace (String c r) = Ok (String c r) -> P (String c r)) ->
  forall s, P s.
Proof.
  intros Hnil Hnl Hsp H2 H3 Hstop.
  assert (H : forall n s, (String.length s <= n)%nat -> P s).
  { induction n as [|n IH]; intros s Hlen.
    - destruct s; [exact Hnil|cbn in Hlen; lia].
    - destruct s as [|c r]; [exact Hnil|]. cbn [String.length] in Hlen.
      destruct (N_of_ascii c =? 10)%N eqn:E10.
      { apply Hnl. intros t. cbn [SkipSpace]. cbv zeta. now rewrite E10. }
      destruct ((9 <=? N_of_ascii c) && (N_of_ascii c <=? 13)
                || (N_of_ascii c =? 32))%N eqn:Esp.
      { apply Hsp; [|apply IH; lia].
        intros t. cbn [SkipSpace]. cbv zeta. now rewrite E10, Esp. }
      destruct r as [|d r].
      { apply Hstop. cbn [SkipSpace]. cbv zeta. now rewrite E10, Esp. }
      cbn [String.length] in Hlen.
      destruct ((N_of_ascii c =? 194)
                && ((N_of_ascii d =? 133) || (N_of_ascii d =? 160)))%N eqn:E2.
      { apply H2; [|apply IH; lia].
        intros t. cbn [SkipSpace]. cbv zeta. now rewrite E10, Esp, E2. }
      destruct r as [|e r].
      { apply Hstop. cbn [SkipSpace]. cbv zeta. now rewrite E10, Esp, E2. }
      cbn [String.length] in Hlen.
      match goal with
      | |- P (String c (String d (String e r))) =>
          assert (Hunf : forall t,
                     SkipSpace (String c (String d (String e t)))
                     = SkipSpace (String c (String d (String e t))))
            by reflexivity
      end.
      cbn [SkipSpace] in Hunf. cbv zeta in Hunf.
      match type of Hunf with
      | forall t, _ = (if _ then _ else if _ then _ else
                         if _ then _ else if ?b then _ else _) =>
          destruct b eqn:E3
      end.
      { apply H3; [|apply IH; lia].
        intros t. specialize (Hunf t). cbn [SkipSpace]. cbv zeta.
        now rewrite E10, Esp, E2, E3. }
      apply Hstop. cbn [SkipSpace]. cbv zeta. now rewrite E10, Esp, E2, E3. }
  intros s. apply (H (String.length s)). lia.
Qed.

Lemma SkipSpace_idem (s : string) :
  forall s1, SkipSpace s = Ok s1 -> SkipSpace s1 = Ok s1.
Proof.
  induction s as [|c r Hnl|c r Hsp IH|c d r H2 IH|c d e r H3 IH|c r Hstop]
    using SkipSpace_ind; intros s1 H.
  - injection H as <-. reflexivity.
  - rewrite Hnl in H. discriminate H.
  - rewrite Hsp in H. now apply IH.
  - rewrite H2 in H. now apply IH.
  - rewrite H3 in H. now apply IH.
  - rewrite Hstop in H. injection H as <-. exact Hstop.
Qed.

Lemma SkipSpace_app (s : string) :
  forall c r j,
    SkipSpace s = Ok (String c r) -> (33 <= N_of_ascii c <= 127)%N ->
    SkipSpace (s ++ j) = Ok (String c r ++ j)%string.
Proof.
  induction s as [|c0 r0 Hnl|c0 r0 Hsp IH|c0 d r0 H2 IH|c0 d e r0 H3 IH
                 |c0 r0 Hstop]
    using SkipSpace_ind; intros c r j H Hc.
  - discriminate H.
  - rewrite Hnl in H. discriminate H.
  - rewrite Hsp in H. cbn [append]. rewrite Hsp. now apply IH.
  - rewrite H2 in H. cbn [append]. rewrite H2. now apply IH.
  - rewrite H3 in H. cbn [append]. rewrite H3. now apply IH.
  - rewrite Hstop in H. injection H as <- <-.
    cbn [append]. now apply SkipSpace_stop.
Qed.

Lemma accept_run_app (s : string) :
  forall tok rest j,
    accept_run s = (tok, rest) ->
    rest <> EmptyString \/ starts_with_digit j = false ->
    accept_run (s ++ j) = (tok, rest ++ j)%string.
Proof.
  induction s as [|c s IH]; intros tok rest j H Hj.
  - cbn [accept_run] in H. injection H as <- <-. cbn [append].
    destruct Hj as [Hne|Hj]; [contradiction|]. now apply accept_run_stop.
  - cbn [accept_run append] in *.
    destruct (is_decimal_digit c).
    + destruct (accept_run s) as [tok' rest'] eqn:Hrun.
      injection H as <- <-. now rewrite (IH tok' rest' j eq_refl Hj).
    + injection H as <- <-. reflexivity.
Qed.

Lemma scanNumber_app (s tok rest j : string) :
  scanNumber s = Ok (tok, rest) ->
  starts_with_digit j = false ->
  scanNumber (s ++ j) = Ok (tok, rest ++ j)%string.
Proof.
  unfold scanNumber. destruct s as [|c s]; [discriminate|]. cbn [append].
  destruct (is_decimal_digit c); [|discriminate].
  intros H Hj. injection H as H.
  change (accept_run (String c s) = (tok, rest)) in H.
  change (String c (s ++ j)) with (String c s ++ j)%string.
  now rewrite (accept_run_app _ _ _ j H (or_intror Hj)).
Qed.

(** A string [scanNumber] accepts starts with a digit. *)
Lemma scanNumber_head (s tok rest : string) :
  scanNumber s = Ok (tok, rest) ->
  exists c r, s = String c r /\ is_decimal_digit c = true.
Proof.
  unfold scanNumber. destruct s as [|c s]; [discriminate|].
  destruct (is_decimal_digit c) eqn:Hc; [|discriminate].
  intros _. now exists c, s.
Qed.

Lemma decimal_digit_ascii (c : ascii) :
  is_decimal_digit c = true -> (33 <= N_of_ascii c <= 127)%N.
Proof.
  unfold is_decimal_digit, digit_value.
  destruct ((48 <=? Z.of_N (N_of_ascii c)) && (Z.of_N (N_of_ascii c) <=? 57))
    eqn:Hd; [|discriminate].
  intros _. apply andb_true_iff in Hd as [Hlo Hhi].
  apply Z.leb_le in Hlo. apply Z.leb_le in Hhi. lia.
Qed.

Lemma scanUint_app (bitSize : Z) (s r j : string) (i : Z) :
  scanUint bitSize s = Ok (i, r) ->
  starts_with_digit j = false ->
  scanUint bitSize (s ++ j) = Ok (i, r ++ j)%string
  /\ exists c t, SkipSpace s = Ok (String c t)
                 /\ (33 <= N_of_ascii c <= 127)%N.
Proof.
  unfold scanUint.
  destruct (SkipSpace s) as [[|c s1]|] eqn:Hskip; try discriminate.
  destruct (scanNumber (String c s1)) as [[tok rest]|] eqn:Hnum;
    try discriminate.
  destruct (ParseUint tok) as [v|] eqn:Hparse; try discriminate.
  destruct (v mod 2 ^ bitSize =? v) eqn:Hfit; try discriminate.
  intros H Hj. injection H as <- <-.
  destruct (scanNumber_head _ _ _ Hnum) as [c' [r' [Heq Hc']]].
  injection Heq as <- <-.
  pose proof (decimal_digit_ascii c Hc') as Hascii.
  split; [|now exists c, s1].
  rewrite (SkipSpace_app s c s1 j Hskip Hascii). cbn [append].
  change (String c (s1 ++ j)) with (String c s1 ++ j)%string.
  rewrite (scanNumber_app _ _ _ j Hnum Hj).
  now rewrite Hparse, Hfit.
Qed.

Lemma scanInt_app (s r j : string) (i : Z) :
  scanInt s = Ok (i, r) ->
  starts_with_digit j = false ->
  scanInt (s ++ j) = Ok (i, r ++ j)%string
  /\ exists c t, SkipSpace s = Ok (String c t)
                 /\ (33 <= N_of_ascii c <= 127)%N.
Proof.
  unfold scanInt.
  destruct (SkipSpace s) as [[|c s1]|] eqn:Hskip; try discriminate.
  destruct (Ascii.eqb c "+" || Ascii.eqb c "-") eqn:Hsign.
  - destruct (scanNumber s1) as [[tok rest]|] eqn:Hnum; try discriminate.
    destruct (ParseInt (String c tok)) as [v|] eqn:Hparse; try discriminate.
    intros H Hj. injection H as <- <-.
    assert (Hascii : (33 <= N_of_ascii c <= 127)%N).
    { apply orb_true_iff in Hsign as [H|H]; apply Ascii.eqb_eq in H;
        subst c; cbn; lia. }
    split; [|now exists c, s1].
    rewrite (SkipSpace_app s c s1 j Hskip Hascii). cbn [append].
    rewrite Hsign, (scanNumber_app _ _ _ j Hnum Hj). now rewrite Hparse.
  - destruct (scanNumber (String c s1)) as [[tok rest]|] eqn:Hnum;
      try discriminate.
    destruct (ParseInt tok) as [v|] eqn:Hparse; try discriminate.
    intros H Hj. injection H as <- <-.
    destruct (scanNumber_head _ _ _ Hnum) as [c' [r' [Heq Hc']]].
    injection Heq as <- <-.
    pose proof (decimal_digit_ascii c Hc') as Hascii.
    split; [|now exists c, s1].
    rewrite (SkipSpace_app s c s1 j Hskip Hascii). cbn [append].
    rewrite Hsign.
    change (String c (s1 ++ j)) with (String c s1 ++ j)%string.
    rewrite (scanNumber_app _ _ _ j Hnum Hj). now rewrite Hparse.
Qed.

Lemma scanOne_app (op : operand) (s r j : string) (i : Z) :
  scanOne op s = Ok (i, r) ->
  starts_with_digit j = false ->
  scanOne op (s ++ j) = Ok (i, r ++ j)%string
  /\ exists c t, SkipSpace s = Ok (String c t)
                 /\ (33 <= N_of_ascii c <= 127)%N.
Proof.
  destruct op as [|bits]; cbn [scanOne].
  - apply scanInt_app.
  - apply scanUint_app.
Qed.

(** A scan that succeeds on [s] succeeds with the same values on [s]
    followed by any text that does not start with a digit. *)
Lemma doScanf_app (fmt : list directive) :
  forall ops s vs j,
    doScanf fmt ops s = Ok vs ->
    starts_with_digit j = false ->
    doScanf fmt ops (s ++ j) = Ok vs.
Proof.
  induction fmt as [|[c|] fmt IH]; intros ops s vs j H Hj.
  - exact H.
  - apply doScanf_Lit_inv in H as [r [-> H]].
    cbn [append]. rewrite doScanf_Lit. now apply IH.
  - destruct ops as [|op ops]; [discriminate H|].
    apply doScanf_VerbD_inv in H as [s1 [v [r [ws [Hskip [Hone [H ->]]]]]]].
    destruct (scanOne_app op s1 r j v Hone Hj) as [Hone' [c [t [Hs1 Hc]]]].
    pose proof (SkipSpace_idem s s1 Hskip) as Hidem.
    rewrite Hidem in Hs1. injection Hs1 as ->.
    cbn [doScanf].
    rewrite (SkipSpace_app s c t j Hskip Hc), Hone'.
    now rewrite (IH ops r ws j H Hj).
Qed.

(** X14.  Neither scan of [NewByEncoded] reads its field to the end: when
    a six-field input parses, so does the input whose version field and
    options field are followed by any text that does not start with a
    digit, and to the same value. *)
Theorem NewByEncoded_ignores_trailing_text
    (e1 e2 f0 f1 f2 f3 f4 f5 j2 j3 : string) (a : Argon2) :
  Split e1 "$" = [f0; f1; f2; f3; f4; f5] ->
  Split e2 "$" = [f0; f1; (f2 ++ j2)%string; (f3 ++ j3)%string; f4; f5] ->
  starts_with_digit j2 = false ->
  starts_with_digit j3 = false ->
  NewByEncoded e1 = (a, None) ->
  NewByEncoded e2 = (a, None).
Proof.
  intros H1 H2 Hj2 Hj3. unfold NewByEncoded, Sscanf. rewrite H1, H2.
  cbn [List.length Nat.eqb encodedSlicesCount negb nth].
  destruct (doScanf (parse_format "v=%d") [IntPtr] f2) as [vs|] eqn:Hv;
    [|discriminate].
  rewrite (doScanf_app _ _ _ _ j2 Hv Hj2).
  destruct (negb (nth 0 vs 0 =? argon2_Version)); [discriminate|].
  destruct (DecodeString f4); [|discriminate].
  destruct (DecodeString f5); [|discriminate].
  destruct (doScanf (parse_format "m=%d,t=%d,p=%d")
                    [UintPtr 32; UintPtr 32; UintPtr 8] f3) as [ws|] eqn:Ho;
    [|discriminate].
  rewrite (doScanf_app _ _ _ _ j3 Ho Hj3).
  intros H. exact H.
Qed.

Lemma NewByEncoded_ignores_trailing_text_witness :
  exists a,
    NewByEncoded "$argon2id$v=19$m=65536,t=3,p=2$c2FsdA$aGFzaA" = (a, None)
    /\ NewByEncoded "$argon2id$v=19.5$m=65536,t=3,p=2,x=7$c2FsdA$aGFzaA"
       = (a, None).
Proof.
  eexists.
  assert (H : NewByEncoded "$argon2id$v=19$m=65536,t=3,p=2$c2FsdA$aGFzaA"
              = (fst (NewByEncoded
                        "$argon2id$v=19$m=65536,t=3,p=2$c2FsdA$aGFzaA"),
                 None))
    by (vm_compute; reflexivity).
  split; [exact H|].
  apply (NewByEncoded_ignores_trailing_text
           "$argon2id$v=19$m=65536,t=3,p=2$c2FsdA$aGFzaA"
           "$argon2id$v=19.5$m=65536,t=3,p=2,x=7$c2FsdA$aGFzaA"
           "" "argon2id" "v=19" "m=65536,t=3,p=2" "c2FsdA" "aGFzaA"
           ".5" ",x=7");
    vm_compute; reflexivity.
Defined.

(** X15.  Rendering is injective on well-formed values: two well-formed
    values with the same rendering are the same value, field by field. *)
Theorem rendering_injective (a b : Argon2) :
  well_formed a -> well_formed b ->
  Argon2_String a = Argon2_String b -> a = b.
Proof.
  intros Ha Hb Heq.
  pose proof (NewByEncoded_rendered a Ha) as Hpa.
  pose proof (NewByEncoded_rendered b Hb) as Hpb.
  rewrite Heq, Hpb in Hpa. now injection Hpa.
Qed.

Lemma rendering_injective_witness :
  let a := mkArgon2 (Some (bytes_of_string "salt")) 1 1024 4 4
                    (Some (bytes_of_string "hash")) true in
  let b := fst (NewByEncoded "$argon2id$v=19$m=1024,t=1,p=4$c2FsdA$aGFzaA") in
  a = b.
Proof.
  cbv zeta.
  apply rendering_injective.
  - unfold well_formed. cbn. repeat split; try lia.
    eexists. eexists. repeat split.
  - apply (NewByEncoded_well_formed
             "$argon2id$v=19$m=1024,t=1,p=4$c2FsdA$aGFzaA").
    + unfold fits_uint32. vm_compute. reflexivity.
    + vm_compute. reflexivity.
  - vm_compute. reflexivity.
Defined.

(** * The fields [NewByEncoded] accepts *)

(** ** Numerals *)

Lemma is_decimal_digit_range (c : ascii) :
  is_decimal_digit c = true <-> 48 <= Z.of_N (N_of_ascii c) <= 57.
Proof.
  unfold is_decimal_digit, digit_value.
  destruct ((48 <=? Z.of_N (N_of_ascii c)) && (Z.of_N (N_of_ascii c) <=? 57))
    eqn:Hd.
  - apply andb_true_iff in Hd as [Hlo Hhi].
    apply Z.leb_le in Hlo. apply Z.leb_le in Hhi. tauto.
  - split; [discriminate|]. intros [Hlo Hhi].
    apply Z.leb_le in Hlo. apply Z.leb_le in Hhi.
    rewrite Hlo, Hhi in Hd. discriminate Hd.
Qed.

Lemma digit_value_digit (c : ascii) :
  is_decimal_digit c = true ->
  digit_value c = Some (Z.of_N (N_of_ascii c) - 48).
Proof.
  unfold is_decimal_digit, digit_value.
  destruct ((48 <=? Z.of_N (N_of_ascii c)) && (Z.of_N (N_of_ascii c) <=? 57));
    [reflexivity|discriminate].
Qed.

Lemma numeral_value_from_mono (s : string) :
  forall acc,
    all_digits s = true -> 0 <= acc -> acc <= numeral_value_from acc s.
Proof.
  induction s as [|c s IH]; intros acc Hd Hacc; cbn [numeral_value_from].
  - lia.
  - cbn [all_digits] in Hd. apply andb_true_iff in Hd as [Hc Hs].
    apply is_decimal_digit_range in Hc.
    specialize (IH (acc * 10 + (Z.of_N (N_of_ascii c) - 48)) Hs ltac:(lia)).
    lia.
Qed.

(** The digit loop of [ParseUint] on a run of digits: it gives the value
    of the run, or a range error when the value does not fit 64 bits. *)
Lemma parse_digits_numeral (s : string) :
  forall acc,
    all_digits s = true -> 0 <= acc <= maxUint64 ->
    parse_digits (maxUint64 / 10 + 1) maxUint64 acc s
    = if numeral_value_from acc s <=? maxUint64
      then Ok (numeral_value_from acc s)
      else Err NumRange.
Proof.
  assert (Hcut : maxUint64 / 10 + 1 = 1844674407370955162) by reflexivity.
  assert (Hmax : maxUint64 = 18446744073709551615) by reflexivity.
  rewrite Hcut.
  induction s as [|c s IH]; intros acc Hd Hacc;
    cbn [parse_digits numeral_value_from].
  - destruct (Z.leb_spec acc maxUint64); [reflexivity|lia].
  - cbn [all_digits] in Hd. apply andb_true_iff in Hd as [Hc Hs].
    rewrite (digit_value_digit c Hc).
    apply is_decimal_digit_range in Hc.
    set (n1 := acc * 10 + (Z.of_N (N_of_ascii c) - 48)).
    assert (Hn1 : 0 <= n1) by (unfold n1; lia).
    pose proof (numeral_value_from_mono s n1 Hs Hn1) as Hmono.
    destruct (Z.geb_spec acc 1844674407370955162) as [Hge|Hlt].
    { destruct (Z.leb_spec (numeral_value_from n1 s) maxUint64);
        [unfold n1 in *; lia|reflexivity]. }
    destruct (Z.gtb_spec n1 maxUint64) as [Hgt|Hle].
    { destruct (Z.leb_spec (numeral_value_from n1 s) maxUint64);
        [lia|reflexivity]. }
    apply IH; [assumption|lia].
Qed.

Lemma ParseUint_numeral (s : string) :
  numeral s ->
  ParseUint s = if numeral_value s <=? maxUint64
                then Ok (numeral_value s) else Err NumRange.
Proof.
  intros [Hne Hd]. unfold ParseUint, numeral_value.
  destruct s as [|c s]; [contradiction|].
  apply parse_digits_numeral; [assumption|]. unfold maxUint64. lia.
Qed.

Lemma numeral_value_nonneg (s : string) :
  all_digits s = true -> 0 <= numeral_value s.
Proof.
  intros Hd. unfold numeral_value.
  now apply (numeral_value_from_mono s 0 Hd).
Qed.

(** [accept_run] cuts the input after its longest prefix of digits. *)
Lemma accept_run_iff (s tok rest : string) :
  accept_run s = (tok, rest)
  <-> s = (tok ++ rest)%string /\ all_digits tok = true
      /\ starts_with_digit rest = false.
Proof.
  split.
  - revert tok rest. induction s as [|c s IH]; intros tok rest H.
    + cbn [accept_run] in H. injection H as <- <-. repeat split.
    + cbn [accept_run] in H.
      destruct (is_decimal_digit c) eqn:Hc.
      * destruct (accept_run s) as [tok' rest'] eqn:Hrun.
        injection H as <- <-.
        destruct (IH tok' rest' eq_refl) as [-> [Hd Hr]].
        cbn [append all_digits]. rewrite Hc, Hd. repeat split. exact Hr.
      * injection H as <- <-. cbn [append all_digits starts_with_digit].
        repeat split. exact Hc.
  - intros [-> [Hd Hr]]. revert Hd.
    induction tok as [|c tok IH]; cbn [append all_digits]; intros Hd.
    + now apply accept_run_stop.
    + apply andb_true_iff in Hd as [Hc Hd]. cbn [accept_run].
      rewrite Hc, (IH Hd). reflexivity.
Qed.

(** ** Spaces *)

Lemma ascii_of_code (c : ascii) (n : N) : N_of_ascii c = n -> c = ascii_of_N n.
Proof. intros <-. symmetry. apply ascii_N_embedding. Qed.

Lemma space_rune_1 (c : ascii) :
  (N_of_ascii c =? 10)%N = false ->
  ((9 <=? N_of_ascii c) && (N_of_ascii c <=? 13) || (N_of_ascii c =? 32))%N
  = true ->
  In (String c EmptyString) space_runes.
Proof.
  intros H10 Hsp. apply N.eqb_neq in H10.
  rewrite orb_true_iff, andb_true_iff, !N.leb_le, N.eqb_eq in Hsp.
  assert (Hn : (N_of_ascii c = 9 \/ N_of_ascii c = 11 \/ N_of_ascii c = 12
                \/ N_of_ascii c = 13 \/ N_of_ascii c = 32)%N) by lia.
  destruct Hn as [H|[H|[H|[H|H]]]]; apply ascii_of_code in H; subst c;
    in_space_runes.
Qed.

Lemma space_rune_2 (c d : ascii) :
  ((N_of_ascii c =? 194)
   && ((N_of_ascii d =? 133) || (N_of_ascii d =? 160)))%N = true ->
  In (String c (String d EmptyString)) space_runes.
Proof.
  intros H.
  rewrite andb_true_iff, orb_true_iff, !N.eqb_eq in H.
  destruct H as [Hc [Hd|Hd]]; apply ascii_of_code in Hc, Hd; subst c d;
    in_space_runes.
Qed.

Lemma space_rune_3 (c d e : ascii) :
  ((N_of_ascii c =? 225) && (N_of_ascii d =? 154) && (N_of_ascii e =? 128)
   || (N_of_ascii c =? 226) && (N_of_ascii d =? 128)
      && ((128 <=? N_of_ascii e) && (N_of_ascii e <=? 138)
          || (N_of_ascii e =? 168) || (N_of_ascii e =? 169)
          || (N_of_ascii e =? 175))
   || (N_of_ascii c =? 226) && (N_of_ascii d =? 129) && (N_of_ascii e =? 159)
   || (N_of_ascii c =? 227) && (N_of_ascii d =? 128)
      && (N_of_ascii e =? 128))%N = true ->
  In (String c (String d (String e EmptyString))) space_runes.
Proof.
  intros H.
  repeat rewrite ?orb_true_iff, ?andb_true_iff, ?N.eqb_eq, ?N.leb_le in H.
  remember (N_of_ascii c) as n eqn:Hn.
  remember (N_of_ascii d) as m eqn:Hm.
  remember (N_of_ascii e) as k eqn:Hk.
  symmetry in Hn, Hm, Hk.
  apply ascii_of_code in Hn, Hm, Hk. subst c d e.
  assert (Hcases :
            (n = 225 /\ m = 154 /\ k = 128
             \/ n = 226 /\ m = 128
                /\ (k = 128 \/ k = 129 \/ k = 130 \/ k = 131 \/ k = 132
                    \/ k = 133 \/ k = 134 \/ k = 135 \/ k = 136 \/ k = 137
                    \/ k = 138 \/ k = 168 \/ k = 169 \/ k = 175)
             \/ n = 226 /\ m = 129 /\ k = 159
             \/ n = 227 /\ m = 128 /\ k = 128)%N) by lia.
  clear H.
  destruct Hcases as [[-> [-> ->]]|[[-> [-> Hk]]|[[-> [-> ->]]|[-> [-> ->]]]]];
    try in_space_runes.
  repeat (destruct Hk as [->|Hk]; [in_space_runes|]). subst k. in_space_runes.
Qed.

(** [SkipSpace] drops one space character and goes on. *)
Lemma SkipSpace_rune (u t : string) :
  In u space_runes -> SkipSpace (u ++ t) = SkipSpace t.
Proof.
  unfold space_runes. cbn [map string_of_codes fold_right In].
  intros H.
  repeat (destruct H as [<-|H]; [reflexivity|]). contradiction.
Qed.

Lemma SkipSpace_blank (b : string) :
  blank b -> forall t, SkipSpace (b ++ t) = SkipSpace t.
Proof.
  induction 1 as [|u s Hu Hs IH]; intros t; [reflexivity|].
  rewrite append_assoc, SkipSpace_rune by assumption. apply IH.
Qed.

Lemma blank_app (a b : string) : blank a -> blank b -> blank (a ++ b).
Proof.
  induction 1 as [|u s Hu Hs IH]; intros Hb; [exact Hb|].
  rewrite append_assoc. apply blank_cons; auto.
Qed.

(** What [SkipSpace] drops is a run of space characters. *)
Lemma SkipSpace_drops_blank (s : string) :
  forall s1, SkipSpace s = Ok s1 ->
             exists b, blank b /\ s = (b ++ s1)%string.
Proof.
  assert (H : forall n s, (String.length s <= n)%nat ->
                          forall s1, SkipSpace s = Ok s1 ->
                                     exists b, blank b /\ s = (b ++ s1)%string).
  { induction n as [|n IH]; intros s0 Hlen s1 Hs.
    - destruct s0; [|cbn in Hlen; lia].
      injection Hs as <-. exists EmptyString. split; [constructor|reflexivity].
    - destruct s0 as [|c r].
      { injection Hs as <-. exists EmptyString.
        split; [constructor|reflexivity]. }
      cbn [String.length] in Hlen.
      assert (Hstop : forall t, Ok (String c t) = Ok s1 ->
                exists b, blank b /\ String c t = (b ++ s1)%string).
      { intros t Ht. injection Ht as <-. exists EmptyString.
        split; [constructor|reflexivity]. }
      assert (Hrec : forall u t,
                In u space_runes -> (String.length t <= n)%nat ->
                SkipSpace t = Ok s1 ->
                exists b, blank b /\ (u ++ t)%string = (b ++ s1)%string).
      { intros u t Hu Ht Hsk.
        destruct (IH t Ht s1 Hsk) as [b [Hb ->]].
        exists (u ++ b)%string. split; [now apply blank_cons|].
        now rewrite append_assoc. }
      cbn [SkipSpace] in Hs. cbv zeta in Hs.
      destruct (N_of_ascii c =? 10)%N eqn:E10; [discriminate Hs|].
      destruct ((9 <=? N_of_ascii c) && (N_of_ascii c <=? 13)
                || (N_of_ascii c =? 32))%N eqn:Esp.
      { apply (Hrec (String c EmptyString) r);
          [now apply space_rune_1|lia|exact Hs]. }
      destruct r as [|d r]; [now apply Hstop|].
      cbn [String.length] in Hlen.
      destruct ((N_of_ascii c =? 194)
                && ((N_of_ascii d =? 133) || (N_of_ascii d =? 160)))%N eqn:E2.
      { apply (Hrec (String c (String d EmptyString)) r);
          [now apply space_rune_2|lia|exact Hs]. }
      destruct r as [|e r]; [now apply Hstop|].
      cbn [String.length] in Hlen.
      match type of Hs with
      | (if ?b then _ else _) = _ => destruct b eqn:E3
      end.
      { apply (Hrec (String c (String d (String e EmptyString))) r);
          [now apply space_rune_3|lia|exact Hs]. }
      now apply Hstop. }
  intros s1. apply (H (String.length s)). lia.
Qed.

(** ** Scanning one unsigned number *)

Lemma numeral_head (tok : string) :
  numeral tok ->
  exists c t, tok = String c t /\ is_decimal_digit c = true.
Proof.
  intros [Hne Hd]. destruct tok as [|c t]; [contradiction|].
  cbn [all_digits] in Hd. apply andb_true_iff in Hd as [Hc _].
  now exists c, t.
Qed.

(** [scanUint] succeeds exactly on optional spaces followed by a numeral
    whose value fits the width; it reads the whole numeral and returns its
    value and what follows. *)
Lemma scanUint_iff (bitSize : Z) (s r : string) (v : Z) :
  0 < bitSize <= 64 ->
  scanUint bitSize s = Ok (v, r)
  <-> exists b tok,
        blank b /\ numeral tok /\ s = (b ++ tok ++ r)%string
        /\ starts_with_digit r = false
        /\ v = numeral_value tok /\ v < 2 ^ bitSize.
Proof.
  intros Hbits.
  assert (Hpow : 2 ^ bitSize <= 2 ^ 64) by (apply Z.pow_le_mono_r; lia).
  assert (Hmax : maxUint64 = 2 ^ 64 - 1) by reflexivity.
  split.
  - unfold scanUint.
    destruct (SkipSpace s) as [[|c s1]|] eqn:Hskip; try discriminate.
    destruct (scanNumber (String c s1)) as [[tok rest]|] eqn:Hnum;
      try discriminate.
    unfold scanNumber in Hnum.
    destruct (is_decimal_digit c) eqn:Hc; [|discriminate Hnum].
    injection Hnum as Hrun.
    change (accept_run (String c s1) = (tok, rest)) in Hrun.
    apply accept_run_iff in Hrun as [Heq [Hd Hrest]].
    assert (Hne : tok <> EmptyString).
    { intros ->. cbn [append] in Heq. subst rest.
      cbn [starts_with_digit] in Hrest. congruence. }
    rewrite (ParseUint_numeral tok (conj Hne Hd)).
    destruct (Z.leb_spec (numeral_value tok) maxUint64) as [Hle|];
      [|discriminate].
    destruct (Z.eqb_spec (numeral_value tok mod 2 ^ bitSize)
                         (numeral_value tok)) as [Hfit|]; [|discriminate].
    intros H. injection H as <- <-.
    destruct (SkipSpace_drops_blank s _ Hskip) as [b [Hb ->]].
    exists b, tok. rewrite Heq. repeat split; try assumption.
    rewrite <- Hfit. apply Z.mod_pos_bound. apply Z.pow_pos_nonneg; lia.
  - intros [b [tok [Hb [Htok [-> [Hrest [-> Hlt]]]]]]].
    destruct (numeral_head tok Htok) as [c [t [Heq Hc]]].
    pose proof (decimal_digit_ascii c Hc) as Hascii.
    destruct Htok as [Hne Hd].
    unfold scanUint.
    rewrite (SkipSpace_blank b Hb).
    assert (Hskip : SkipSpace (tok ++ r) = Ok (tok ++ r)%string).
    { rewrite Heq. cbn [append]. now apply SkipSpace_stop. }
    rewrite Hskip.
    assert (Hnum : scanNumber (tok ++ r) = Ok (tok, r)).
    { unfold scanNumber.
      replace (accept_run (tok ++ r)) with (tok, r)
        by (symmetry; apply accept_run_iff; auto).
      rewrite Heq. cbn [append]. now rewrite Hc. }
    replace (match (tok ++ r)%string with
             | EmptyString => Err UnexpectedEOF
             | String _ _ =>
                 match scanNumber (tok ++ r) with
                 | Ok (tok0, rest) =>
                     match ParseUint tok0 with
                     | Ok i =>
                         if i mod 2 ^ bitSize =? i
                         then Ok (i, rest) else Err IntegerOverflow
                     | Err e => Err e
                     end
                 | Err e => Err e
                 end
             end)
      with (match scanNumber (tok ++ r) with
            | Ok (tok0, rest) =>
                match ParseUint tok0 with
                | Ok i =>
                    if i mod 2 ^ bitSize =? i
                    then Ok (i, rest) else Err IntegerOverflow
                | Err e => Err e
                end
            | Err e => Err e
            end)
      by (rewrite Heq; reflexivity).
    rewrite Hnum, (ParseUint_numeral tok (conj Hne Hd)).
    pose proof (numeral_value_nonneg tok Hd) as Hnn.
    destruct (Z.leb_spec (numeral_value tok) maxUint64); [|lia].
    rewrite Z.mod_small by lia. now rewrite Z.eqb_refl.
Qed.

(** ** Scanning the options field *)

Lemma doScanf_VerbD_uint (bitSize : Z) (fmt : list directive)
    (ops : list operand) (b tok rest : string) :
  0 < bitSize <= 64 ->
  blank b -> numeral tok -> starts_with_digit rest = false ->
  numeral_value tok < 2 ^ bitSize ->
  doScanf (VerbD :: fmt) (UintPtr bitSize :: ops) (b ++ tok ++ rest)
  = match doScanf fmt ops rest with
    | Err e => Err e
    | Ok vs => Ok (numeral_value tok :: vs)
    end.
Proof.
  intros Hbits Hb Htok Hrest Hlt.
  destruct (numeral_head tok Htok) as [c [t [Heq Hc]]].
  pose proof (decimal_digit_ascii c Hc) as Hascii.
  cbn [doScanf]. rewrite (SkipSpace_blank b Hb).
  replace (SkipSpace (tok ++ rest)) with (Ok (tok ++ rest)%string)
    by (rewrite Heq; cbn [append]; symmetry; now apply SkipSpace_stop).
  cbn [scanOne].
  replace (scanUint bitSize (tok ++ rest))
    with (Ok (numeral_value tok, rest)); [reflexivity|].
  symmetry. apply scanUint_iff; [assumption|].
  exists EmptyString, tok. repeat split; try assumption; try apply Htok.
  constructor.
Qed.

Lemma doScanf_VerbD_uint_inv (bitSize : Z) (fmt : list directive)
    (ops : list operand) (s : string) (vs : list Z) :
  0 < bitSize <= 64 ->
  doScanf (VerbD :: fmt) (UintPtr bitSize :: ops) s = Ok vs ->
  exists b tok rest ws,
    blank b /\ numeral tok /\ s = (b ++ tok ++ rest)%string
    /\ starts_with_digit rest = false
    /\ numeral_value tok < 2 ^ bitSize
    /\ doScanf fmt ops rest = Ok ws /\ vs = numeral_value tok :: ws.
Proof.
  intros Hbits H.
  apply doScanf_VerbD_inv in H as [s1 [v [r [ws [Hskip [Hone [H ->]]]]]]].
  cbn [scanOne] in Hone.
  apply scanUint_iff in Hone
    as [b' [tok [Hb' [Htok [-> [Hrest [-> Hlt]]]]]]]; [|assumption].
  destruct (SkipSpace_drops_blank s _ Hskip) as [b [Hb ->]].
  exists (b ++ b')%string, tok, r, ws.
  repeat split; try assumption; try apply Htok.
  - now apply blank_app.
  - now rewrite append_assoc.
Qed.

(** The scan of the options field succeeds, with the numbers [m], [t] and
    [p], exactly on the fields described by [options_accepted]. *)
Lemma Sscanf_options_iff (f : string) (m t p : Z) :
  Sscanf f "m=%d,t=%d,p=%d" [UintPtr 32; UintPtr 32; UintPtr 8]
  = Ok [m; t; p]
  <-> options_accepted f m t p.
Proof.
  unfold Sscanf.
  change (parse_format "m=%d,t=%d,p=%d")
    with [Lit "m"; Lit "="; VerbD; Lit ","; Lit "t"; Lit "="; VerbD;
          Lit ","; Lit "p"; Lit "="; VerbD].
  split.
  - intros H.
    apply doScanf_Lit_inv in H as [r1 [-> H]].
    apply doScanf_Lit_inv in H as [r2 [-> H]].
    apply doScanf_VerbD_uint_inv in H
      as [b1 [n1 [r3 [w1 [Hb1 [Hn1 [-> [_ [Hm [H Hw1]]]]]]]]]]; [|lia].
    apply doScanf_Lit_inv in H as [r4 [-> H]].
    apply doScanf_Lit_inv in H as [r5 [-> H]].
    apply doScanf_Lit_inv in H as [r6 [-> H]].
    apply doScanf_VerbD_uint_inv in H
      as [b2 [n2 [r7 [w2 [Hb2 [Hn2 [-> [_ [Ht [H Hw2]]]]]]]]]]; [|lia].
    apply doScanf_Lit_inv in H as [r8 [-> H]].
    apply doScanf_Lit_inv in H as [r9 [-> H]].
    apply doScanf_Lit_inv in H as [r10 [-> H]].
    apply doScanf_VerbD_uint_inv in H
      as [b3 [n3 [rest [w3 [Hb3 [Hn3 [-> [Hrest [Hp [H Hw3]]]]]]]]]]; [|lia].
    cbn [doScanf] in H. injection H as <-. subst w2 w1.
    injection Hw1 as -> -> ->.
    exists b1, n1, b2, n2, b3, n3, rest.
    repeat split; try assumption; try apply Hn1; try apply Hn2;
      try apply Hn3.
  - intros (b1 & n1 & b2 & n2 & b3 & n3 & rest & Hf & Hb1 & Hb2 & Hb3
              & Hn1 & Hn2 & Hn3 & Hrest & Hvm & Hvt & Hvp & Hm & Ht & Hp).
    subst f m t p. cbn [append]. rewrite !doScanf_Lit.
    rewrite doScanf_VerbD_uint by (lia || assumption || reflexivity).
    rewrite !doScanf_Lit.
    rewrite doScanf_VerbD_uint by (lia || assumption || reflexivity).
    rewrite !doScanf_Lit.
    rewrite doScanf_VerbD_uint by (lia || assumption || reflexivity).
    reflexivity.
Qed.

(** ** Decoding a base64 field *)

Lemma index_from_contains (c : ascii) (s : string) :
  forall i, (exists v, index_from c s i = Some v) <-> contains c s = true.
Proof.
  induction s as [|d s IH]; intros i; cbn [index_from contains].
  - split; [intros [v H]; discriminate H|discriminate].
  - rewrite (Ascii.eqb_sym d c).
    destruct (Ascii.eqb c d); cbn [orb].
    + split; [reflexivity|]. intros _. now exists i.
    + apply IH.
Qed.

Lemma decode_char_alphabet (c : ascii) :
  (exists v, decode_char c = Some v) <-> contains c encodeStd = true.
Proof. apply index_from_contains. Qed.

Lemma cr_lf_outside_alphabet (c : ascii) :
  is_cr_or_lf c = true -> decode_char c = None.
Proof.
  unfold is_cr_or_lf. intros H.
  apply orb_true_iff in H as [H|H]; apply Ascii.eqb_eq in H; subst c;
    reflexivity.
Qed.

Lemma sextets_spec (s : string) :
  match sextets s with
  | Some q =>
      all_in_alphabet (strip_newlines s) = true
      /\ List.length q = String.length (strip_newlines s)
  | None => all_in_alphabet (strip_newlines s) = false
  end.
Proof.
  induction s as [|c s IH]; cbn [sextets strip_newlines].
  - split; reflexivity.
  - destruct (decode_char c) as [v|] eqn:Hc.
    + assert (Hnl : is_cr_or_lf c = false).
      { destruct (is_cr_or_lf c) eqn:E; [|reflexivity].
        rewrite (cr_lf_outside_alphabet c E) in Hc. discriminate Hc. }
      assert (Hin : contains c encodeStd = true)
        by (apply decode_char_alphabet; now exists v).
      rewrite Hnl. cbn [all_in_alphabet String.length]. rewrite Hin.
      destruct (sextets s) as [q|]; cbn [option_map andb].
      * destruct IH as [Ha Hl]. split; [assumption|].
        cbn [List.length]. now rewrite Hl.
      * exact IH.
    + destruct (is_cr_or_lf c); [exact IH|].
      cbn [all_in_alphabet].
      destruct (contains c encodeStd) eqn:Hin; [|reflexivity].
      apply decode_char_alphabet in Hin as [v Hv]. congruence.
Qed.

Lemma quanta_spec (q : list Z) :
  match quanta q with
  | Some _ => (List.length q mod 4 <> 1)%nat
  | None => (List.length q mod 4 = 1)%nat
  end.
Proof.
  induction q as [|a|a b|a b c|a b c d q IH] using list_ind4;
    cbn [quanta]; try (cbn; lia).
  replace (List.length (a :: b :: c :: d :: q))
    with (List.length q + 1 * 4)%nat by (cbn [List.length]; lia).
  rewrite Nat.Div0.mod_add.
  destruct (quanta q); exact IH.
Qed.

(** [DecodeString] succeeds exactly on the fields described by
    [base64_accepted]. *)
Lemma DecodeString_iff (s : string) :
  (exists bs, DecodeString s = Ok bs) <-> base64_accepted s.
Proof.
  unfold DecodeString, base64_accepted.
  pose proof (sextets_spec s) as Hs.
  destruct (sextets s) as [q|].
  - destruct Hs as [Ha Hl]. pose proof (quanta_spec q) as Hq.
    rewrite <- Hl.
    destruct (quanta q) as [bs|].
    + split; [now split|]. intros _. now exists bs.
    + split; [intros [bs H]; discriminate H|]. intros [_ Hn]. contradiction.
  - split; [intros [bs H]; discriminate H|]. intros [Ha _]. congruence.
Qed.

Lemma DecodeString_err_iff (s : string) :
  (exists e, DecodeString s = Err e) <-> ~ base64_accepted s.
Proof.
  rewrite <- DecodeString_iff.
  destruct (DecodeString s) as [bs|e].
  - split; [intros [e H]; discriminate H|]. intros H. exfalso. apply H.
    now exists bs.
  - split; [|intros _; now exists e]. intros _ [bs H]. discriminate H.
Qed.

Lemma Sscanf_options_err_iff (f : string) :
  (exists e, Sscanf f "m=%d,t=%d,p=%d" [UintPtr 32; UintPtr 32; UintPtr 8]
             = Err e)
  <-> ~ (exists m t p, options_accepted f m t p).
Proof.
  destruct (Sscanf f "m=%d,t=%d,p=%d" [UintPtr 32; UintPtr 32; UintPtr 8])
    as [ws|e] eqn:Hscan.
  - split; [intros [e H]; discriminate H|]. intros H. exfalso. apply H.
    destruct (Sscanf_options_range f ws Hscan) as [m [t [p [-> _]]]].
    exists m, t, p. now apply Sscanf_options_iff.
  - split; [|intros _; now exists e].
    intros _ [m [t [p H]]]. apply Sscanf_options_iff in H. congruence.
Qed.

(** ** The options and base64 fields, as the specification words them
    and as the code takes them *)

Lemma contains_all_digits (c : ascii) (s : string) :
  all_digits s = true -> is_decimal_digit c = false -> contains c s = false.
Proof.
  intros Hd Hc. induction s as [|d s IH]; cbn [contains]; [reflexivity|].
  cbn [all_digits] in Hd. apply andb_true_iff in Hd as [Hdd Hs].
  rewrite (IH Hs), orb_false_r.
  destruct (Ascii.eqb_spec d c) as [->|]; [congruence|reflexivity].
Qed.

(** A field written [m=<uint>,t=<uint>,p=<uint>] has no 'x' in it. *)
Lemma written_as_options_no_x (f : string) :
  written_as_options f -> contains "x" f = false.
Proof.
  intros (m & t & p & [_ Hm] & [_ Ht] & [_ Hp] & ->).
  rewrite !contains_app.
  rewrite (contains_all_digits "x" m Hm), (contains_all_digits "x" t Ht),
    (contains_all_digits "x" p Hp) by reflexivity.
  reflexivity.
Qed.

Lemma encode_char_in_alphabet_all :
  forallb (fun n => contains (encode_char (Z.of_nat n)) encodeStd)
          (seq 0 64) = true.
Proof. vm_compute. reflexivity. Qed.

Lemma contains_sextet_char_outside (c : ascii) (val k : Z) (s : string) :
  0 <= k -> contains c encodeStd = false ->
  contains c (String (sextet_char val k) s) = contains c s.
Proof.
  intros Hk Hc. cbn [contains].
  destruct (Ascii.eqb_spec (sextet_char val k) c) as [Heq|]; [|reflexivity].
  exfalso. subst c. unfold sextet_char in Hc.
  pose proof (sextet_index val k Hk) as Hi.
  pose proof encode_char_in_alphabet_all as H.
  rewrite forallb_forall in H.
  specialize (H (Z.to_nat (Z.land (Z.shiftr val k) 63))).
  rewrite Z2Nat.id in H by lia.
  rewrite H in Hc; [discriminate Hc|]. apply in_seq. lia.
Qed.

(** The encoder writes no character from outside the alphabet. *)
Lemma EncodeToString_alphabet (c : ascii) (l : list byte) :
  contains c encodeStd = false -> contains c (EncodeToString l) = false.
Proof.
  intros Hc.
  induction l as [|x|x y|x y z l IH] using list_ind3;
    cbn [EncodeToString];
    rewrite ?contains_sextet_char_outside by (lia || assumption);
    [reflexivity..|exact IH].
Qed.

(** C6, counterexample.  With six fields and version 19: an options field
    that is not of the form [m=<uint>,t=<uint>,p=<uint>] is accepted; an
    options field of that form, next to two well-written base64 fields,
    is rejected with a decode failure; a salt field that is not a base64
    encoding (it holds a line feed) is accepted. *)
Lemma options_field_counterexample :
  (let e := "$argon2id$v=19$m=65536,t=3,p=2,x=7 junk$c2FsdA$aGFzaA" in
   List.length (Split e "$") = encodedSlicesCount
   /\ Sscanf (nth 2 (Split e "$") "") "v=%d" [IntPtr] = Ok [argon2_Version]
   /\ ~ written_as_options (nth 3 (Split e "$") "")
   /\ snd (NewByEncoded e) = None)
  /\ (let e := "$argon2id$v=19$m=65536,t=3,p=256$c2FsdA$aGFzaA" in
      List.length (Split e "$") = encodedSlicesCount
      /\ Sscanf (nth 2 (Split e "$") "") "v=%d" [IntPtr] = Ok [argon2_Version]
      /\ written_as_options (nth 3 (Split e "$") "")
      /\ written_as_base64 (nth 4 (Split e "$") "")
      /\ written_as_base64 (nth 5 (Split e "$") "")
      /\ exists err, snd (NewByEncoded e) = Some err
                     /\ is_DecodeFailure err = true)
  /\ (let e := ("$argon2id$v=19$m=65536,t=3,p=2$c2Fs"
                ++ String "010" "dA$aGFzaA")%string in
      List.length (Split e "$") = encodedSlicesCount
      /\ Sscanf (nth 2 (Split e "$") "") "v=%d" [IntPtr] = Ok [argon2_Version]
      /\ ~ written_as_base64 (nth 4 (Split e "$") "")
      /\ snd (NewByEncoded e) = None).
Proof.
  cbv zeta. split; [|split].
  - split; [vm_compute; reflexivity|].
    split; [vm_compute; reflexivity|].
    split; [|vm_compute; reflexivity].
    intros H. apply written_as_options_no_x in H. vm_compute in H.
    discriminate H.
  - split; [vm_compute; reflexivity|].
    split; [vm_compute; reflexivity|].
    split.
    { exists "65536", "3", "256".
      repeat split; try discriminate; vm_compute; reflexivity. }
    split; [exists (bytes_of_string "salt"); vm_compute; reflexivity|].
    split; [exists (bytes_of_string "hash"); vm_compute; reflexivity|].
    eexists. split; vm_compute; reflexivity.
  - split; [vm_compute; reflexivity|].
    split; [vm_compute; reflexivity|].
    split; [|vm_compute; reflexivity].
    intros [bs H].
    pose proof (EncodeToString_alphabet "010" bs eq_refl) as Hnl.
    rewrite <- H in Hnl. vm_compute in Hnl. discriminate Hnl.
Qed.

(** C6, as the code has it.  On a six-field input whose version field
    scans as [v=19], [NewByEncoded] fails, with a decode failure, exactly
    when the fourth field is not "m=", "t=" and "p=" in that order,
    separated by commas, each followed by optional spaces and a run of
    digits whose value fits 32, 32 and 8 bits (anything but a digit may
    follow the last run), or the fifth or the sixth field, once carriage
    returns and line feeds are dropped, has a character outside the
    standard alphabet or one character more than a multiple of four.
    Otherwise it succeeds with a valid value whose memory, iterations and
    parallelism are the three numbers. *)
Theorem decode_failure_iff_not_accepted (encoded : string) :
  List.length (Split encoded "$") = encodedSlicesCount ->
  Sscanf (nth 2 (Split encoded "$") "") "v=%d" [IntPtr]
  = Ok [argon2_Version] ->
  let vals := Split encoded "$" in
  let accepted :=
    (exists m t p, options_accepted (nth 3 vals "") m t p)
    /\ base64_accepted (nth 4 vals "")
    /\ base64_accepted (nth 5 vals "") in
  ((exists e, snd (NewByEncoded encoded) = Some e
              /\ is_DecodeFailure e = true)
   <-> ~ accepted)
  /\ (snd (NewByEncoded encoded) = None
      /\ isValid (fst (NewByEncoded encoded)) = true
      <-> accepted)
  /\ (forall m t p,
        options_accepted (nth 3 vals "") m t p ->
        snd (NewByEncoded encoded) = None ->
        memory (fst (NewByEncoded encoded)) = m
        /\ iterations (fst (NewByEncoded encoded)) = t
        /\ parallelism (fst (NewByEncoded encoded)) = p).
Proof.
  intros Hlen Hver. cbv zeta.
  pose proof (DecodeString_iff (nth 4 (Split encoded "$") "")) as H4.
  pose proof (DecodeString_iff (nth 5 (Split encoded "$") "")) as H5.
  pose proof (Sscanf_options_iff (nth 3 (Split encoded "$") "")) as H3.
  pose proof (Sscanf_options_range (nth 3 (Split encoded "$") "")) as H3r.
  unfold NewByEncoded. cbv zeta.
  rewrite Hlen, Nat.eqb_refl. cbn [negb].
  rewrite Hver. cbn [nth]. rewrite Z.eqb_refl. cbn [negb].
  destruct (DecodeString (nth 4 (Split encoded "$") "")) as [s|e4].
  2:{ assert (Hno : ~ base64_accepted (nth 4 (Split encoded "$") "")).
      { intros Ha. apply H4 in Ha as [bs Hbs]. discriminate Hbs. }
      cbn [fst snd]. split; [split|split; [split|]].
      - intros _ [_ [Ha _]]. contradiction.
      - intros _. eexists. split; reflexivity.
      - intros [H _]. discriminate H.
      - intros [_ [Ha _]]. contradiction.
      - intros m t p _ H. discriminate H. }
  destruct (DecodeString (nth 5 (Split encoded "$") "")) as [h|e5].
  2:{ assert (Hno : ~ base64_accepted (nth 5 (Split encoded "$") "")).
      { intros Ha. apply H5 in Ha as [bs Hbs]. discriminate Hbs. }
      cbn [fst snd]. split; [split|split; [split|]].
      - intros _ [_ [_ Ha]]. contradiction.
      - intros _. eexists. split; reflexivity.
      - intros [H _]. discriminate H.
      - intros [_ [_ Ha]]. contradiction.
      - intros m t p _ H. discriminate H. }
  destruct (Sscanf (nth 3 (Split encoded "$") "") "m=%d,t=%d,p=%d"
                   [UintPtr 32; UintPtr 32; UintPtr 8]) as [ws|e3].
  2:{ assert (Hno : ~ exists m t p,
                      options_accepted (nth 3 (Split encoded "$") "") m t p).
      { intros [m [t [p Ha]]]. apply H3 in Ha. discriminate Ha. }
      cbn [fst snd]. split; [split|split; [split|]].
      - intros _ [Ha _]. contradiction.
      - intros _. eexists. split; reflexivity.
      - intros [H _]. discriminate H.
      - intros [Ha _]. contradiction.
      - intros m t p _ H. discriminate H. }
  destruct (H3r ws eq_refl) as [m0 [t0 [p0 [-> _]]]].
  assert (Hyes : (exists m t p,
                    options_accepted (nth 3 (Split encoded "$") "") m t p)
                 /\ base64_accepted (nth 4 (Split encoded "$") "")
                 /\ base64_accepted (nth 5 (Split encoded "$") "")).
  { split; [|split].
    - exists m0, t0, p0. now apply H3.
    - apply H4. now exists s.
    - apply H5. now exists h. }
  cbn [fst snd isValid nth memory iterations parallelism].
  split; [split|split; [split|]].
  - intros [e [H _]]. discriminate H.
  - intros Hn. contradiction.
  - intros _. exact Hyes.
  - intros _. split; reflexivity.
  - intros m t p Ha _. apply H3 in Ha. injection Ha as -> -> ->.
    repeat split.
Qed.

Lemma decode_failure_iff_not_accepted_witness :
  let encoded := "$argon2id$v=19$m= 0065536,t=3,p=2;$c2FsdA$aGFzaA" in
  snd (NewByEncoded encoded) = None
  /\ isValid (fst (NewByEncoded encoded)) = true.
Proof.
  cbv zeta.
  apply (decode_failure_iff_not_accepted
           "$argon2id$v=19$m= 0065536,t=3,p=2;$c2FsdA$aGFzaA").
  - vm_compute. reflexivity.
  - vm_compute. reflexivity.
  - split; [|split; split; vm_compute; (reflexivity || discriminate)].
    exists 65536, 3, 2.
    exists " ", "0065536", "", "3", "", "2", ";".
    repeat split; try discriminate; try (vm_compute; reflexivity);
      try constructor.
    apply (blank_cons " " ""); [|constructor]. in_space_runes.
Defined.
